(** * Schedule.ts: cron registration and the Redis lock guard

    A shallow embedding of [src/core/Schedule.ts]: the [Scheduled] and
    [SchedulerLock] decorators, the method wrapper [SchedulerLock]
    installs, and the registrar [injectSchedule] / [execInjectSchedule]
    with the callback it hands to [CronJob].

    Promises are read sequentially: an [async] function is a computation
    that ends in a value (the promise resolves) or in a thrown value (the
    promise rejects), [await] is sequencing.  Everything the file imports
    from elsewhere ([think_container], [cron], [../util/Locker],
    [../util/Lib], [./Constants]) is a field of the class
    [Imports]. *)

From Stdlib Require Import String Ascii List ZArith Bool Lia.
Import ListNotations.
Open Scope string_scope.

(** ** JavaScript values, as far as the file looks into them *)

#[warnings="-register-all"]
Inductive any : Type :=
| Undefined
| Null
| Boolean (b : bool)
| Number (n : Z)
| NaN
| Str (s : string)
| Array (items : list any)
| Object (fields : list (string * any))
| Error (message : string).

(** ToBoolean, the test behind [||], [&&], [!] and [if]. *)
Definition truthy (v : any) : bool :=
  match v with
  | Undefined | Null | NaN => false
  | Boolean b => b
  | Number n => negb (n =? 0)%Z
  | Str s => negb (s =? "")
  | Array _ | Object _ | Error _ => true
  end.

(** Optional parameters: [name?: string] and [lockTimeOut?: number] are
    [None] when the argument is left out. *)
Definition of_string (s : option string) : any :=
  match s with Some s => Str s | None => Undefined end.

Definition of_number (n : option Z) : any :=
  match n with Some n => Number n | None => Undefined end.

(** [`${x}`] for a string that may be undefined. *)
Definition template (s : option string) : string :=
  match s with Some s => s | None => "undefined" end.

(** ** [think_lib] *)

Module helper.

(** White space as [\s] matches it on 7-bit text. *)
Definition is_space (c : ascii) : bool :=
  let n := nat_of_ascii c in
  (((9 <=? n) && (n <=? 13)) || (n =? 32))%nat.

Fixpoint blank (s : string) : bool :=
  match s with
  | EmptyString => true
  | String c s' => is_space c && blank s'
  end.

(** [helper.isEmpty] of the package [think_lib], which is not part of
    this repository: true on [undefined], [null], a string of white
    space only, [NaN], [[]] and [{}], false on everything else (on [0]
    and on [false] too). *)
Definition isEmpty (v : any) : bool :=
  match v with
  | Undefined | Null | NaN => true
  | Str s => blank s
  | Array items => match items with [] => true | _ => false end
  | Object fields => match fields with [] => true | _ => false end
  | Boolean _ | Number _ | Error _ => false
  end.

End helper.


(** ** Outcomes *)

Inductive result (A : Type) : Type :=
| Ok (a : A)
| Throw (e : any).
Arguments Ok {A} a.
Arguments Throw {A} e.

Definition raised {A} (r : result A) : bool :=
  match r with Ok _ => false | Throw _ => true end.

(** ** What the file imports

    [outside] is the state of the world outside the file: the Redis
    server, the business objects, the configuration.  [receiver] is the
    type of instances, the [this] of a method call. *)

(** [../util/Locker]: the three calls the wrapper makes on a client.
    Each returns a promise, so each ends in a value or in a rejection.
    [unLock] is tested before it is called, so it may be missing. *)
Record Locker (outside : Type) : Type := {
  lock : option string -> option Z -> outside -> outside * result bool;
  waitLock : option string -> option Z -> option Z -> option Z ->
             outside -> outside * result bool;
  unLock : option (option string -> outside -> outside * result unit)
}.
Arguments lock {outside}.
Arguments waitLock {outside}.
Arguments unLock {outside}.

(** A method is a business method of the application, or what
    [SchedulerLock] put in its place; the second keeps the variables its
    closure holds. *)
Inductive method (outside receiver : Type) : Type :=
| Native (body : receiver -> list any -> outside -> outside * result any)
| Locked (name : option string) (methodName : string)
         (lockTimeOut waitLockInterval waitLockTimeOut : option Z)
         (value : method outside receiver).
Arguments Native {outside receiver}.
Arguments Locked {outside receiver}.

Inductive property (outside receiver : Type) : Type :=
| Absent
| Data (v : any)
| Function (m : method outside receiver).
Arguments Absent {outside receiver}.
Arguments Data {outside receiver}.
Arguments Function {outside receiver}.

(** The data [Scheduled] attaches to a method. *)
Record ScheduleMeta : Type := { cron : string; method_name : string }.

(** One call of [IOCContainer.attachPropertyData]. *)
Record Attached (target : Type) : Type := {
  decoratorNameKey : string;
  data : ScheduleMeta;
  attached_to : target;
  propertyName : string
}.
Arguments decoratorNameKey {target}.
Arguments data {target}.
Arguments attached_to {target}.
Arguments propertyName {target}.

Class Imports : Type := {
  outside : Type;
  (** What a decorator is applied to, and what [injectSchedule] is
      called with. *)
  Target : Type;
  receiver : Type;
  (** [IOCContainer.getType] and [IOCContainer.getIdentifier] of
      [think_container]. *)
  getType : Target -> string;
  getIdentifier : Target -> option string;
  (** [target.constructor.name]; [None] when [target.constructor] is
      falsy. *)
  constructor_name : Target -> option string;
  (** [this.app.config(name, type)]. *)
  app_config : receiver -> string -> string -> outside -> any;
  (** [Locker.getInstance(options)]: a client, or a falsy value. *)
  getInstance : any -> outside -> outside * option (Locker outside);
  (** [instance[method]], read when it is used. *)
  prop : receiver -> string -> outside -> property outside receiver;
  (** [SCHEDULE_KEY] of [./Constants]. *)
  SCHEDULE_KEY : string;
  (** [recursiveGetMetadata] of [../util/Lib], on the calls of
      [attachPropertyData] made so far: method names in the order
      [for ... in] walks them, each with its list of records. *)
  recursiveGetMetadata :
    string -> Target -> list (Attached Target) -> list (string * list ScheduleMeta);
  (** [process.env.APP_DEBUG]. *)
  APP_DEBUG : bool;
  (** [new CronJob(cron, ...)] of the package [cron] throws on a pattern
      it cannot read: the value it throws, or [None] for a pattern it
      accepts. *)
  CronJob_rejects : string -> option any
}.

(** ** The file *)

Section Code.

Context `{Imports}.

(** *** What the file does to the outside, in order *)

Inductive level : Type := info | warn | custom.

(** [Logged] is [logger.info], [logger.warn] or [logger.custom] with a
    message and [LoggedError] is [logger.error(e)]; [GotInstance],
    [CalledLock], [CalledWaitLock] and [CalledUnLock] are the calls on
    [Locker] with their arguments; [Applied] is [value.apply(this,
    props)] in the installed method and [Invoked] is
    [instance[method]()] in the callback of a timer. *)
Inductive event : Type :=
| Logged (l : level) (message : string)
| LoggedError (e : any)
| GotInstance (redisOptions : any)
| CalledLock (name : option string) (lockTimeOut : option Z)
| CalledWaitLock (name : option string)
                 (lockTimeOut waitLockInterval waitLockTimeOut : option Z)
| CalledUnLock (name : option string)
| Applied (this : receiver) (props : list any)
| Invoked (instance : receiver) (method : string).

(** *** The one-shot listeners and the timers *)

Record Container : Type := {
  getApp : option nat;
  getInsByClass : Target -> outside -> option receiver
}.

(** The arrow function [execInjectSchedule] gives to [app.once]: the
    four variables it closes over. *)
Record Listener : Type := {
  l_target : Target;
  l_container : Container;
  l_method : string;
  l_cron : string
}.

(** A [CronJob]: its pattern, the variables its callback closes over
    and whether [start] was called. *)
Record CronJob : Type := {
  cronTime : string;
  job_name : string;
  job_instance : receiver;
  job_method : string;
  running : bool
}.

Record world : Type := {
  trace : list event;
  ext : outside;
  registry : list (Attached Target);
  listeners : list (nat * string * Listener);
  timers : list CronJob
}.

Definition set_trace (t : list event) (w : world) : world :=
  {| trace := t; ext := ext w; registry := registry w;
     listeners := listeners w; timers := timers w |}.

Definition set_ext (s : outside) (w : world) : world :=
  {| trace := trace w; ext := s; registry := registry w;
     listeners := listeners w; timers := timers w |}.

Definition set_registry (r : list (Attached Target)) (w : world) : world :=
  {| trace := trace w; ext := ext w; registry := r;
     listeners := listeners w; timers := timers w |}.

Definition set_listeners (l : list (nat * string * Listener)) (w : world) : world :=
  {| trace := trace w; ext := ext w; registry := registry w;
     listeners := l; timers := timers w |}.

Definition set_timers (t : list CronJob) (w : world) : world :=
  {| trace := trace w; ext := ext w; registry := registry w;
     listeners := listeners w; timers := t |}.

(** *** Computations: a state, and a value or a thrown value *)

Definition M (A : Type) : Type := world -> world * result A.

Definition ret {A} (a : A) : M A := fun w => (w, Ok a).

Definition throw {A} (e : any) : M A := fun w => (w, Throw e).

Definition bind {A B} (m : M A) (k : A -> M B) : M B :=
  fun w =>
    match m w with
    | (w', Ok a) => k a w'
    | (w', Throw e) => (w', Throw e)
    end.

Notation "x <- m ;; k" := (bind m (fun x => k))
  (at level 61, m at next level, right associativity).
Notation "m ;;; k" := (bind m (fun _ => k))
  (at level 61, right associativity).

(** [try { m } catch (e) { h e }], and [promise.catch(h)]. *)
Definition catch {A} (m : M A) (h : any -> M A) : M A :=
  fun w =>
    match m w with
    | (w', Throw e) => h e w'
    | done => done
    end.

(** [try { m } finally { f }]: [f] runs after [m] however [m] ended,
    and the outcome of [m] stands unless [f] throws. *)
Definition finally {A} (m : M A) (f : M unit) : M A :=
  fun w =>
    let (w', r) := m w in
    match f w' with
    | (w'', Ok _) => (w'', r)
    | (w'', Throw e) => (w'', Throw e)
    end.

Definition emit (e : event) : M unit :=
  fun w => (set_trace (trace w ++ [e]) w, Ok tt).

(** A call that leaves the file, run on the outside state. *)
Definition extern {A} (f : outside -> outside * result A) : M A :=
  fun w => let (s, r) := f (ext w) in (set_ext s w, r).

Definition read {A} (f : outside -> A) : M A :=
  fun w => (w, Ok (f (ext w))).

Fixpoint for_each {A} (l : list A) (body : A -> M unit) : M unit :=
  match l with
  | [] => ret tt
  | x :: l' => body x ;;; for_each l' body
  end.

Definition logger_info (message : string) : M unit := emit (Logged info message).
Definition logger_warn (message : string) : M unit := emit (Logged warn message).
Definition logger_custom (message : string) : M unit := emit (Logged custom message).
Definition logger_error (e : any) : M unit := emit (LoggedError e).

(** [helper.isFunction] of [think_lib]. *)
Definition isFunction (p : property outside receiver) : bool :=
  match p with Function _ => true | _ => false end.

(** *** [Scheduled] *)

Definition attachPropertyData (key : string) (d : ScheduleMeta)
    (target : Target) (propertyKey : string) : M unit :=
  fun w =>
    (set_registry
       (registry w ++ [{| decoratorNameKey := key; data := d;
                          attached_to := target; propertyName := propertyKey |}]) w,
     Ok tt).

Record PropertyDescriptor : Type := {
  value : method outside receiver;
  configurable : bool;
  enumerable : bool;
  writable : bool
}.

(** The decorator [Scheduled] returns gives nothing back, so the
    descriptor stays as it is. *)
Definition Scheduled (cron : string)
  : M (Target -> string -> PropertyDescriptor -> M unit) :=
  if helper.isEmpty (Str cron) then
    throw (Error "ScheduleJob rule is not defined")
  else
    ret (fun target propertyKey descriptor =>
           attachPropertyData SCHEDULE_KEY
             {| cron := cron; method_name := propertyKey |} target propertyKey).

(** *** [SchedulerLock] *)

(** [Locker.getInstance(redisOptions)]. *)
Definition Locker_getInstance (redisOptions : any) : M (option (Locker outside)) :=
  emit (GotInstance redisOptions) ;;;
  fun w => let (s, l) := getInstance redisOptions (ext w) in (set_ext s w, Ok l).

(** The method [SchedulerLock] puts in the descriptor:
    [async value(...props)].  [name], [methodName] and the three numbers
    are the variables of the enclosing closures, [value] is the method
    that was there. *)
Definition SchedulerLock_value
    (name : option string) (methodName : string)
    (lockTimeOut waitLockInterval waitLockTimeOut : option Z)
    (value : receiver -> list any -> M any)
    (this : receiver) (props : list any) : M any :=
  redisOptions <-
    (a <- read (app_config this "SchedulerLock" "db") ;;
     if truthy a then ret a else read (app_config this "redis" "db")) ;;
  if helper.isEmpty redisOptions then
    throw (Error "Missing redis server configuration. Please write a configuration item with the key name 'SchedulerLock' or 'redis' in the db.ts file.")
  else
    lockerCls <- Locker_getInstance redisOptions ;;
    match lockerCls with
    | None =>
        throw (Error ("Redis connection failed. The method " ++ methodName
                      ++ " is not executed."))
    | Some lockerCls =>
        lockerFlag <-
          (if truthy (of_number waitLockInterval) || truthy (of_number waitLockTimeOut)
           then
             catch
               (emit (CalledWaitLock name lockTimeOut waitLockInterval waitLockTimeOut) ;;;
                extern (waitLock lockerCls name lockTimeOut waitLockInterval waitLockTimeOut))
               (fun er => logger_error er ;;; ret false)
           else
             catch
               (emit (CalledLock name lockTimeOut) ;;;
                extern (lock lockerCls name lockTimeOut))
               (fun er => logger_error er ;;; ret false)) ;;
        if (lockerFlag : bool) then
          finally
            (catch
               (logger_info ("The locker " ++ template name ++ " executed.") ;;;
                emit (Applied this props) ;;;
                res <- value this props ;;
                ret res)
               (fun e => throw e))
            (match unLock lockerCls with
             | Some unLock =>
                 catch (emit (CalledUnLock name) ;;; extern (unLock name))
                       (fun er => logger_error er)
             | None => ret tt
             end)
        else
          logger_warn ("Redis lock " ++ template name
                       ++ " acquisition failed. The method " ++ methodName
                       ++ " is not executed.") ;;;
          ret Undefined
    end.

(** Calling a method. *)
Fixpoint apply (m : method outside receiver) : receiver -> list any -> M any :=
  match m with
  | Native body => fun this props => extern (body this props)
  | Locked name methodName lockTimeOut waitLockInterval waitLockTimeOut value =>
      SchedulerLock_value name methodName lockTimeOut waitLockInterval
        waitLockTimeOut (apply value)
  end.

(** [`${identifier}_${methodName}`] with the identifier the decorator
    computes. *)
Definition default_name (target : Target) (methodName : string) : string :=
  let identifier :=
    if truthy (of_string (getIdentifier target)) then template (getIdentifier target)
    else match constructor_name target with Some n => n | None => "" end in
  identifier ++ "_" ++ methodName.

(** The decorator [SchedulerLock(name, lockTimeOut, waitLockInterval,
    waitLockTimeOut)] returns, applied to a method.  [name] is a variable
    of the call of [SchedulerLock], which the decorator assigns to and
    the installed method reads when it runs: the application gives back
    the variable as it leaves it, beside the new descriptor.  Once a
    decorator was applied the variable is not empty, so no later
    application changes it ([SchedulerLock_name_settled]) and the
    installed method always reads the value given back here. *)
Definition SchedulerLock
    (name : option string)
    (lockTimeOut waitLockInterval waitLockTimeOut : option Z)
    (target : Target) (methodName : string) (descriptor : PropertyDescriptor)
  : M (option string * PropertyDescriptor) :=
  let componentType := getType target in
  if componentType =? "CONTROLLER" then
    throw (Error "SchedulerLock decorator cannot be used in the controller class.")
  else
    let name :=
      if helper.isEmpty (of_string name) then Some (default_name target methodName)
      else name in
    ret (name,
         {| configurable := configurable descriptor;
            enumerable := enumerable descriptor;
            writable := true;
            value := Locked name methodName lockTimeOut waitLockInterval
                       waitLockTimeOut (value descriptor) |}).

Definition Lock := SchedulerLock.

(** *** The registrar *)

(** [app.once(eventName, listener)]. *)
Definition once (app : nat) (eventName : string) (l : Listener) : M unit :=
  fun w => (set_listeners (listeners w ++ [(app, eventName, l)]) w, Ok tt).

(** [`${identifier}_${method}`] in [execInjectSchedule]. *)
Definition job_name_of (target : Target) (method : string) : string :=
  template (getIdentifier target) ++ "_" ++ method.

(** [new CronJob(cron, callback).start()]; the callback is [onTick]
    below.  The constructor throws on a pattern it cannot read, and then
    there is no timer. *)
Definition new_CronJob_start (cron name : string) (instance : receiver)
    (method : string) : M unit :=
  match CronJob_rejects cron with
  | Some e => throw e
  | None =>
      fun w =>
        (set_timers
           (timers w ++ [{| cronTime := cron; job_name := name;
                            job_instance := instance;
                            job_method := method; running := true |}]) w,
         Ok tt)
  end.

(** The callback given to [CronJob]. *)
Definition onTick (j : CronJob) : M any :=
  logger_info ("The schedule job " ++ job_name j ++ " started.") ;;;
  catch
    (p <- read (prop (job_instance j) (job_method j)) ;;
     match p with
     | Function m =>
         emit (Invoked (job_instance j) (job_method j)) ;;;
         res <- apply m (job_instance j) [] ;;
         ret res
     | _ => throw (Error "instance[method] is not a function")
     end)
    (fun e => logger_error e ;;; ret Undefined).

(** The listener of [appStart]. *)
Definition appStart (l : Listener) : M unit :=
  let identifier := getIdentifier (l_target l) in
  instance <- read (getInsByClass (l_container l) (l_target l)) ;;
  let name := job_name_of (l_target l) (l_method l) in
  match instance with
  | None => ret tt
  | Some instance =>
      p <- read (prop instance (l_method l)) ;;
      if isFunction p && truthy (Str (l_cron l)) then
        (if APP_DEBUG then
           logger_custom ("Register inject " ++ template identifier
                          ++ " schedule key: " ++ l_method l
                          ++ " => value: " ++ l_cron l)
         else ret tt) ;;;
        new_CronJob_start (l_cron l) name instance (l_method l)
      else ret tt
  end.

Definition execInjectSchedule (target : Target) (container : Container)
    (method cron : string) : M unit :=
  match getApp container with
  | Some app =>
      once app "appStart"
        {| l_target := target; l_container := container;
           l_method := method; l_cron := cron |}
  | None => ret tt
  end.

Definition injectSchedule (target : Target) (instance : receiver)
    (container : Container) : M unit :=
  metaDatas <- (fun w => (w, Ok (recursiveGetMetadata SCHEDULE_KEY target (registry w)))) ;;
  for_each metaDatas (fun entry =>
    let meta := fst entry in
    for_each (snd entry) (fun val =>
      if truthy (Str (cron val)) && truthy (Str meta) then
        execInjectSchedule target container meta (cron val)
      else ret tt)).

(** *** The event emitter and the timer driver

    [app.emit(eventName)] of Node's event emitter, for listeners added
    with [once]: the listeners the event has when it is emitted are
    called in the order they were added, each taken off just before it
    is called; one that throws ends the call, and those after it stay
    on. *)
Definition listens (app : nat) (eventName : string)
    (l : nat * string * Listener) : bool :=
  (fst (fst l) =? app)%nat && (snd (fst l) =? eventName).

Fixpoint remove_first {A} (f : A -> bool) (l : list A) : list A :=
  match l with
  | [] => []
  | x :: l' => if f x then l' else x :: remove_first f l'
  end.

(** The listener about to be called is the first one of the event that
    is still on. *)
Definition take_off (app : nat) (eventName : string) : M unit :=
  fun w =>
    (set_listeners (remove_first (listens app eventName) (listeners w)) w, Ok tt).

Definition app_emit (app : nat) (eventName : string) : M unit :=
  fun w =>
    for_each (filter (listens app eventName) (listeners w))
             (fun l => take_off app eventName ;;; appStart (snd l))
             w.

(** The timer driver, as little forgiving as one can be: it fires the
    timers of a schedule (positions in [timers]) one after the other and
    stops for good when a callback throws. *)
Definition fire (i : nat) : M unit :=
  fun w =>
    match nth_error (timers w) i with
    | Some j => if running j then (onTick j ;;; ret tt) w else (w, Ok tt)
    | None => (w, Ok tt)
    end.

Fixpoint drive (schedule : list nat) : M unit :=
  match schedule with
  | [] => ret tt
  | i :: rest => fire i ;;; drive rest
  end.

End Code.

(** ** Words for the statements *)

Section Words.

Context `{Imports}.

(** [this.app.config("SchedulerLock", "db") || this.app.config("redis", "db")]. *)
Definition redisOptions_of (this : receiver) (s : outside) : any :=
  let a := app_config this "SchedulerLock" "db" s in
  if truthy a then a else app_config this "redis" "db" s.

(** [waitLockInterval || waitLockTimeOut] as a condition. *)
Definition retries (waitLockInterval waitLockTimeOut : option Z) : bool :=
  truthy (of_number waitLockInterval) || truthy (of_number waitLockTimeOut).

(** The call that acquires, and its mark in the trace. *)
Definition acquire (lockerCls : Locker outside) (name : option string)
    (lockTimeOut waitLockInterval waitLockTimeOut : option Z)
  : outside -> outside * result bool :=
  if retries waitLockInterval waitLockTimeOut
  then waitLock lockerCls name lockTimeOut waitLockInterval waitLockTimeOut
  else lock lockerCls name lockTimeOut.

Definition acquire_event (name : option string)
    (lockTimeOut waitLockInterval waitLockTimeOut : option Z) : event :=
  if retries waitLockInterval waitLockTimeOut
  then CalledWaitLock name lockTimeOut waitLockInterval waitLockTimeOut
  else CalledLock name lockTimeOut.

(** The lock is held when the promise resolved to [true]; a promise that
    resolved to [false] or was rejected is a failed acquisition. *)
Definition acquired (r : result bool) : bool :=
  match r with Ok true => true | _ => false end.

(** What [.catch(er => logger.error(er))] leaves in the trace. *)
Definition rejection_log {A} (r : result A) : list event :=
  match r with Throw er => [LoggedError er] | Ok _ => [] end.

Definition add_events (evs : list event) (w : world) : world :=
  set_trace (trace w ++ evs) w.

(** The [finally] block of the installed method, run on [w]. *)
Definition release (lockerCls : Locker outside) (name : option string)
    (w : world) : world :=
  match unLock lockerCls with
  | None => w
  | Some unLock =>
      let (s, r) := unLock name (ext w) in
      set_ext s (add_events (CalledUnLock name :: rejection_log r) w)
  end.

Definition config_error : any :=
  Error "Missing redis server configuration. Please write a configuration item with the key name 'SchedulerLock' or 'redis' in the db.ts file.".

Definition connection_error (methodName : string) : any :=
  Error ("Redis connection failed. The method " ++ methodName ++ " is not executed.").

Definition skip_warning (name : option string) (methodName : string) : event :=
  Logged warn ("Redis lock " ++ template name ++ " acquisition failed. The method "
               ++ methodName ++ " is not executed.").

Definition executed_message (name : option string) : event :=
  Logged info ("The locker " ++ template name ++ " executed.").

Definition started_message (j : CronJob) : event :=
  Logged info ("The schedule job " ++ job_name j ++ " started.").



Definition is_warning (e : event) : bool :=
  match e with Logged warn _ => true | _ => false end.

Fixpoint starts_with (p s : string) : bool :=
  match p, s with
  | EmptyString, _ => true
  | String a p', String b s' => (a =? b)%char && starts_with p' s'
  | String _ _, EmptyString => false
  end.

(** The start message of some firing. *)
Definition is_started (e : event) : bool :=
  match e with
  | Logged info message => starts_with "The schedule job " message
  | _ => false
  end.

(** An event that is no start message of a firing. *)
Definition quiet (e : event) : Prop := is_started e = false.

(** [w'] is [w] with more events at the end of the trace, each in [P],
    and with the registry, the listeners and the timers of [w]. *)
Definition grows (P : event -> Prop) (w w' : world) : Prop :=
  exists evs, trace w' = (trace w ++ evs)%list /\ Forall P evs /\
    registry w' = registry w /\ listeners w' = listeners w /\ timers w' = timers w.

Definition adds {A} (P : event -> Prop) (m : M A) : Prop :=
  forall w, grows P w (fst (m w)).

(** The timer a listener of [appStart] asks [CronJob] for, if it asks
    for one. *)
Definition job_of (s : outside) (l : Listener) : list CronJob :=
  match getInsByClass (l_container l) (l_target l) s with
  | None => []
  | Some instance =>
      if isFunction (prop instance (l_method l) s) && truthy (Str (l_cron l))
      then [{| cronTime := l_cron l; job_name := job_name_of (l_target l) (l_method l);
               job_instance := instance; job_method := l_method l; running := true |}]
      else []
  end.

Definition registration_log (s : outside) (l : Listener) : list event :=
  match job_of s l with
  | [] => []
  | _ => if APP_DEBUG
         then [Logged custom ("Register inject " ++ template (getIdentifier (l_target l))
                              ++ " schedule key: " ++ l_method l
                              ++ " => value: " ++ l_cron l)]
         else []
  end.

(** The (method, cron) pairs of the metadata in the order
    [injectSchedule] walks them, and those it hands to
    [execInjectSchedule]. *)
Definition entries (metaDatas : list (string * list ScheduleMeta))
  : list (string * string) :=
  flat_map (fun entry => map (fun val => (fst entry, cron val)) (snd entry)) metaDatas.

Definition handed_on (e : string * string) : bool :=
  truthy (Str (snd e)) && truthy (Str (fst e)).

Definition listener_of (app : nat) (target : Target) (container : Container)
    (e : string * string) : nat * string * Listener :=
  (app, "appStart",
   {| l_target := target; l_container := container;
      l_method := fst e; l_cron := snd e |}).

(** The listeners [injectSchedule] leaves on the application for the
    metadata of a target: none when the container has no application. *)
Definition pending (target : Target) (container : Container)
    (metaDatas : list (string * list ScheduleMeta)) : list (nat * string * Listener) :=
  match getApp container with
  | Some app => map (listener_of app target container) (filter handed_on (entries metaDatas))
  | None => []
  end.

(** The start messages of the firings of a schedule that name a started
    timer, in the order of the schedule. *)
Definition firings (ts : list CronJob) (schedule : list nat) : list event :=
  flat_map (fun i =>
              match nth_error ts i with
              | Some j => if running j then [started_message j] else []
              | None => []
              end) schedule.

End Words.

(** More words, for what a call of the installed method leaves in the
    trace. *)

Section Holding.

Context `{Imports}.

Definition is_Applied (e : event) : bool :=
  match e with Applied _ _ => true | _ => false end.

Definition is_CalledUnLock (e : event) : bool :=
  match e with CalledUnLock _ => true | _ => false end.

(** The client that holds the lock in a call that starts in the outside
    state [s]: none when the options are empty, when
    [Locker.getInstance] gives no client, and when the acquisition
    fails. *)
Definition holder (name : option string)
    (lockTimeOut waitLockInterval waitLockTimeOut : option Z)
    (this : receiver) (s : outside) : option (Locker outside) :=
  if helper.isEmpty (redisOptions_of this s) then None
  else
    match getInstance (redisOptions_of this s) s with
    | (s0, Some lockerCls) =>
        if acquired (snd (acquire lockerCls name lockTimeOut waitLockInterval
                            waitLockTimeOut s0))
        then Some lockerCls else None
    | (_, None) => None
    end.

(** What the [finally] block adds to the trace in the outside state [s]. *)
Definition release_events (lockerCls : Locker outside) (name : option string)
    (s : outside) : list event :=
  match unLock lockerCls with
  | None => []
  | Some unLock => CalledUnLock name :: rejection_log (snd (unLock name s))
  end.

(** What [new CronJob] throws in the listener [l], if the listener comes
    to call it and the pattern is rejected. *)
Definition rejected (s : outside) (l : Listener) : option any :=
  match job_of s l with
  | [] => None
  | _ => CronJob_rejects (l_cron l)
  end.

(** Of the listeners an emitted event has, in order: those that are
    called (up to and with the first one that throws), those that
    return, those left on the application, and what is thrown. *)
Fixpoint called (s : outside) (ls : list (nat * string * Listener))
  : list (nat * string * Listener) :=
  match ls with
  | [] => []
  | l :: rest =>
      l :: match rejected s (snd l) with
           | Some _ => []
           | None => called s rest
           end
  end.

Fixpoint returned (s : outside) (ls : list (nat * string * Listener))
  : list (nat * string * Listener) :=
  match ls with
  | [] => []
  | l :: rest =>
      match rejected s (snd l) with
      | Some _ => []
      | None => l :: returned s rest
      end
  end.

Fixpoint left_on (s : outside) (ls : list (nat * string * Listener))
  : list (nat * string * Listener) :=
  match ls with
  | [] => []
  | l :: rest =>
      match rejected s (snd l) with
      | Some _ => rest
      | None => left_on s rest
      end
  end.

Fixpoint thrown (s : outside) (ls : list (nat * string * Listener))
  : option any :=
  match ls with
  | [] => None
  | l :: rest =>
      match rejected s (snd l) with
      | Some e => Some e
      | None => thrown s rest
      end
  end.

End Holding.

(** ** A small application to run the file on

    One service, [TaskService], with a method [run] that counts its runs
    in the outside state and fails on the third; a controller; and lock
    clients whose answers are fixed. *)

Module Demo.

Definition run (this : string) (props : list any) (runs : nat)
  : nat * result any :=
  (S runs,
   if (S runs =? 3)%nat then Throw (Error "the third run fails")
   else Ok (Number (Z.of_nat (S runs)))).

(** A client whose [lock] and [waitLock] both end in [answer], with or
    without an [unLock]. *)
Definition client (answer : result bool) (unlock : option (result unit))
  : Locker nat :=
  {| lock := fun _ _ s => (s, answer);
     waitLock := fun _ _ _ _ s => (s, answer);
     unLock := option_map (fun r => fun (_ : option string) (s : nat) => (s, r)) unlock |}.

Definition held_client : Locker nat := client (Ok false) (Some (Ok tt)).

Definition free_client : Locker nat := client (Ok true) (Some (Ok tt)).

(** Redis refuses the connection: every call is rejected. *)
Definition refused_client : Locker nat :=
  client (Throw (Error "ECONNREFUSED")) (Some (Throw (Error "ECONNREFUSED"))).

Definition redis_server : any := Object [("host", Str "127.0.0.1")].

Definition redis_only (name : string) : any :=
  if name =? "redis" then redis_server else Undefined.

Definition empty_SchedulerLock (name : string) : any :=
  if name =? "SchedulerLock" then Object [] else redis_only name.

Definition no_config (name : string) : any := Undefined.

(** A pattern made of digits, [*], [/], [,], [-], [?] and blanks is
    read; anything else is thrown back. *)
Definition cron_character (c : ascii) : bool :=
  let n := nat_of_ascii c in
  (((48 <=? n) && (n <=? 57)) || (n =? 42) || (n =? 47) || (n =? 44)
   || (n =? 45) || (n =? 63) || (n =? 32))%nat.

Fixpoint cron_characters (s : string) : bool :=
  match s with
  | EmptyString => true
  | String c s' => cron_character c && cron_characters s'
  end.

Definition rejects (cron : string) : option any :=
  if cron_characters cron then None else Some (Error ("Unknown alias: " ++ cron)).

(** The application under a configuration of [db.ts] and with the lock
    client [Locker.getInstance] gives, if it gives one.  The prototype of
    [TaskService] has no identifier of its own.  Instances have the
    method [run], also under the empty name, and a string [title]. *)
Definition imports (config : string -> any) (lockerCls : option (Locker nat))
  : Imports :=
  {| outside := nat;
     Target := string;
     receiver := string;
     getType := fun t => if t =? "UserController" then "CONTROLLER" else "SERVICE";
     getIdentifier := fun t => if t =? "TaskService.prototype" then None else Some t;
     constructor_name := fun t =>
       if t =? "TaskService.prototype" then Some "TaskService" else Some "Function";
     app_config := fun _ name type _ => if type =? "db" then config name else Undefined;
     getInstance := fun _ s => (s, lockerCls);
     prop := fun _ m _ =>
       if (m =? "run") || (m =? "") then Function (Native run)
       else if m =? "title" then Data (Str "tasks")
       else Absent;
     SCHEDULE_KEY := "SCHEDULE_KEY";
     recursiveGetMetadata := fun key t attached =>
       map (fun a => (propertyName a, [data a]))
           (filter (fun a => (decoratorNameKey a =? key) && (attached_to a =? t))
                   attached);
     APP_DEBUG := false;
     CronJob_rejects := rejects |}.

Definition start (config : string -> any) (lockerCls : option (Locker nat))
  : @world (imports config lockerCls) :=
  @Build_world (imports config lockerCls) [] 0%nat [] [] [].

(** A container with an application (number 1) or without, where only
    [TaskService] has an instance. *)
Definition container (config : string -> any) (lockerCls : option (Locker nat))
    (app : option nat) : @Container (imports config lockerCls) :=
  @Build_Container (imports config lockerCls) app
    (fun t _ => if t =? "TaskService" then Some "taskService" else None).

Definition descriptor (config : string -> any) (lockerCls : option (Locker nat))
  : @PropertyDescriptor (imports config lockerCls) :=
  @Build_PropertyDescriptor (imports config lockerCls) (Native run) true false true.

(** The state after [@Scheduled("* * * * * *")] on the method
    [methodName] of [TaskService]. *)
Definition scheduled (config : string -> any) (lockerCls : option (Locker nat))
    (methodName : string) : @world (imports config lockerCls) :=
  match @Scheduled (imports config lockerCls) "* * * * * *" (start config lockerCls) with
  | (w, Ok decorator) =>
      fst (decorator "TaskService" methodName (descriptor config lockerCls) w)
  | (w, Throw _) => w
  end.

(** The state with the one timer of [TaskService.run] started. *)
Definition ticking (config : string -> any) (lockerCls : option (Locker nat))
  : @world (imports config lockerCls) :=
  let I := imports config lockerCls in
  fst (@app_emit I 1 "appStart"
         (fst (@injectSchedule I "TaskService" "taskService"
                 (container config lockerCls (Some 1))
                 (scheduled config lockerCls "run")))).

(** The same application with [run] under [@SchedulerLock()], as the
    scheduler finds it on the instance. *)
Definition guarded (config : string -> any) (lockerCls : option (Locker nat))
  : Imports :=
  let I := imports config lockerCls in
  {| outside := nat;
     Target := string;
     receiver := string;
     getType := @getType I;
     getIdentifier := @getIdentifier I;
     constructor_name := @constructor_name I;
     app_config := @app_config I;
     getInstance := @getInstance I;
     prop := fun _ m _ =>
       if m =? "run"
       then Function (Locked (Some "TaskService_run") "run" None None None (Native run))
       else Absent;
     SCHEDULE_KEY := "SCHEDULE_KEY";
     recursiveGetMetadata := @recursiveGetMetadata I;
     APP_DEBUG := true;
     CronJob_rejects := rejects |}.


End Demo.


(** * BaseController.ts: the response helpers

    [types], [write], [json], [jsonp], [ok] and [fail] of the class
    [BaseController].  The Koa context is the record [Context]: the
    request as the helpers read it, and the last values assigned to
    [ctx.type] and [ctx.body].  [this.app] is the record [App]. *)

Module BaseController.

(** [encoding?: string | boolean], and what
    [this.app.config('encoding')] gives. *)
Inductive encoding : Type :=
| Missing
| Flag (b : bool)
| Charset (s : string).

Definition truthy_encoding (e : encoding) : bool :=
  match e with
  | Missing => false
  | Flag b => b
  | Charset s => negb (s =? "")
  end.

(** [encoding !== false]. *)
Definition not_false (e : encoding) : bool :=
  match e with Flag false => false | _ => true end.

(** The string [+] makes of it. *)
Definition encoding_string (e : encoding) : string :=
  match e with
  | Missing => "undefined"
  | Flag true => "true"
  | Flag false => "false"
  | Charset s => s
  end.

Record App : Type := {
  (** [this.app.config('encoding')]. *)
  config_encoding : encoding;
  (** How the promise of [this.app.prevent()] ends. *)
  prevent : result any;
  (** [JSON.stringify]. *)
  JSON_stringify : any -> string
}.

Record Context : Type := {
  (** [ctx.headers[name]].  Node hands the bytes of a header over as one
      character each, so the characters of a header are the code points
      below 256. *)
  headers : string -> option string;
  (** [ctx.querys(name)]. *)
  querys : string -> option string;
  (** The last value assigned to [ctx.type], if any. *)
  type : option string;
  (** The last value assigned to [ctx.body]. *)
  body : any
}.

Definition set_type (t : string) (ctx : Context) : Context :=
  {| headers := headers ctx; querys := querys ctx; type := Some t; body := body ctx |}.

Definition set_body (data : any) (ctx : Context) : Context :=
  {| headers := headers ctx; querys := querys ctx; type := type ctx; body := data |}.

(** *** Strings *)

Definition lower (c : ascii) : ascii :=
  let n := nat_of_ascii c in
  if ((65 <=? n) && (n <=? 90))%nat then ascii_of_nat (n + 32) else c.

(** [s.toLowerCase()], on 7-bit letters; no other character becomes a
    letter of [charset=] in lower case, so the test below is the one the
    code makes. *)
Fixpoint toLowerCase (s : string) : string :=
  match s with
  | EmptyString => EmptyString
  | String c s' => String (lower c) (toLowerCase s')
  end.

(** [s.toLowerCase().indexOf('charset=') === -1] is [has_charset s = false]. *)
Definition has_charset (s : string) : bool :=
  match String.index 0 "charset=" (toLowerCase s) with
  | Some _ => true
  | None => false
  end.

(** [s.split(';')[0]]. *)
Fixpoint before_semicolon (s : string) : string :=
  match s with
  | EmptyString => EmptyString
  | String c s' => if (c =? ";")%char then EmptyString else String c (before_semicolon s')
  end.

(** The white space and the line terminators of the language among the
    code points below 256: tab, line feed, vertical tab, form feed,
    carriage return, space and the no-break space. *)
Definition white_space (c : ascii) : bool :=
  let n := nat_of_ascii c in
  (((9 <=? n) && (n <=? 13)) || (n =? 32) || (n =? 160))%nat.

Fixpoint trimStart (s : string) : string :=
  match s with
  | EmptyString => EmptyString
  | String c s' => if white_space c then trimStart s' else s
  end.

Fixpoint trimEnd (s : string) : string :=
  match s with
  | EmptyString => EmptyString
  | String c s' =>
      let rest := trimEnd s' in
      if white_space c && (rest =? "") then EmptyString else String c rest
  end.

(** [s.trim()] on a string of code points below 256. *)
Definition trim (s : string) : string := trimEnd (trimStart s).

(** A character [\w] or a dot: what [/[^\w\.]/g] leaves in place. *)
Definition word_or_dot (c : ascii) : bool :=
  let n := nat_of_ascii c in
  (((48 <=? n) && (n <=? 57)) || ((65 <=? n) && (n <=? 90))
   || ((97 <=? n) && (n <=? 122)) || (n =? 95) || (n =? 46))%nat.

(** [s.replace(/[^\w\.]/g, '')]. *)
Fixpoint keep_word_or_dot (s : string) : string :=
  match s with
  | EmptyString => EmptyString
  | String c s' =>
      if word_or_dot c then String c (keep_word_or_dot s') else keep_word_or_dot s'
  end.

(** Every character of [s] passes [f]. *)
Fixpoint every (f : ascii -> bool) (s : string) : bool :=
  match s with
  | EmptyString => true
  | String c s' => f c && every f s'
  end.


(** *** The helpers

    Each takes [this.app] and [this.ctx] first and gives back the
    context as it leaves it, beside what it returns. *)

(** [types(contentType?, encoding?)].  The value of the assignment
    [this.ctx.type = contentType] is [contentType]. *)
Definition types (app : App) (ctx : Context) (contentType : option string)
    (encoding : encoding) : Context * string :=
  if negb (truthy (of_string contentType)) then
    (ctx,
     trim (before_semicolon
             (match headers ctx "content-type" with
              | Some h => if h =? "" then "" else h
              | None => ""
              end)))
  else
    let contentType := template contentType in
    let contentType :=
      if not_false encoding && negb (has_charset contentType) then
        contentType ++ "; charset="
        ++ encoding_string (if truthy_encoding encoding then encoding
                            else config_encoding app)
      else contentType in
    (set_type contentType ctx, contentType).

(** [write(data, contentType?, encoding?)], with [encoding?: string]. *)
Definition write (app : App) (ctx : Context) (data : any)
    (contentType encoding : option string) : Context * result any :=
  let contentType :=
    if truthy (of_string contentType) then template contentType else "text/plain" in
  let encoding :=
    if truthy (of_string encoding) then Charset (template encoding)
    else config_encoding app in
  let ctx := fst (types app ctx (Some contentType) encoding) in
  let ctx := set_body data ctx in
  (ctx, prevent app).

Definition json (app : App) (ctx : Context) (data : any) : Context * result any :=
  write app ctx data (Some "application/json") None.

Definition jsonp (app : App) (ctx : Context) (data : any) : Context * result any :=
  let callback :=
    if truthy (of_string (querys ctx "callback")) then template (querys ctx "callback")
    else "callback" in
  let callback := keep_word_or_dot callback in
  let data :=
    if negb (callback =? "") then
      Str (callback ++ "("
           ++ (match data with Undefined => "" | _ => JSON_stringify app data end)
           ++ ")")
    else data in
  write app ctx data (Some "application/json") None.

(** [ok(errmsg?, data?, code = 200)]. *)
Definition ok (app : App) (ctx : Context) (errmsg : option string) (data : any)
    (code : option Z) : Context * result any :=
  let code := match code with Some c => c | None => 200%Z end in
  let obj :=
    [("status", Number 1); ("code", Number code);
     ("message", Str (if truthy (of_string errmsg) then template errmsg else ""))] in
  let obj :=
    (obj ++ [("data", match data with Undefined => Object [] | _ => data end)])%list in
  write app ctx (Object obj) (Some "application/json") None.

(** [fail(errmsg?, data?, code = 500)]; [helper.isError] of [think_lib]
    is true on errors only. *)
Definition fail (app : App) (ctx : Context) (errmsg data : any)
    (code : option Z) : Context * result any :=
  let code := match code with Some c => c | None => 500%Z end in
  let message :=
    match errmsg with Error message => Str message | _ => errmsg end in
  let obj :=
    [("status", Number 0); ("code", Number code);
     ("message", if truthy message then message else Str "error")] in
  let obj :=
    (obj ++ [("data", match data with Undefined => Object [] | _ => data end)])%list in
  write app ctx (Object obj) (Some "application/json") None.

(** A request [?callback=...] to an application whose encoding is
    [utf-8]. *)
Definition utf8 : App :=
  {| config_encoding := Charset "utf-8";
     prevent := Ok Undefined;
     JSON_stringify := fun _ => "{}" |}.

Definition request (callback : option string) : Context :=
  {| headers := fun name =>
       if name =? "content-type" then Some " text/html ; charset=gbk" else None;
     querys := fun name => if name =? "callback" then callback else None;
     type := None;
     body := Undefined |}.

End BaseController.

(** ** What the file does *)

Section Facts.

Context `{Imports}.

Local Arguments String.append : simpl never.

(** *** The installed method, step by step *)

Ltac run :=
  unfold SchedulerLock_value, Locker_getInstance, onTick, appStart,
    new_CronJob_start, logger_info, logger_warn, logger_error, logger_custom,
    finally, catch, bind, emit, extern, read, ret, throw.

Ltac same_world :=
  unfold add_events, set_ext, set_trace, set_timers, set_listeners, set_registry;
  simpl; repeat rewrite <- app_assoc; simpl; try reflexivity.

Lemma SchedulerLock_value_steps name methodName lt wi wt value this props w :
  SchedulerLock_value name methodName lt wi wt value this props w =
  let opts := redisOptions_of this (ext w) in
  if helper.isEmpty opts then (w, Throw config_error)
  else
    match getInstance opts (ext w) with
    | (s0, None) =>
        (set_ext s0 (add_events [GotInstance opts] w),
         Throw (connection_error methodName))
    | (s0, Some lockerCls) =>
        let (s1, r) := acquire lockerCls name lt wi wt s0 in
        let w1 :=
          set_ext s1
            (add_events (GotInstance opts :: acquire_event name lt wi wt
                         :: rejection_log r) w) in
        if acquired r then
          let (w2, out) :=
            value this props
              (add_events [executed_message name; Applied this props] w1) in
          (release lockerCls name w2, out)
        else (add_events [skip_warning name methodName] w1, Ok Undefined)
    end.
Proof.
  run. unfold redisOptions_of, acquire, acquire_event, retries, release,
    executed_message, skip_warning, connection_error, config_error.
  cbv zeta.
  destruct (truthy (app_config this "SchedulerLock" "db" (ext w))); simpl;
  (destruct (helper.isEmpty _); [ reflexivity | ]);
  (destruct (getInstance _ (ext w)) as [s0 [lockerCls|]]; simpl; [ | same_world ]);
  (destruct (truthy (of_number wi) || truthy (of_number wt)); simpl;
   match goal with
   | |- context [lock lockerCls name lt ?s] =>
       destruct (lock lockerCls name lt s) as [s1 [[|]|er]]
   | |- context [waitLock lockerCls name lt wi wt ?s] =>
       destruct (waitLock lockerCls name lt wi wt s) as [s1 [[|]|er]]
   end; simpl; try same_world);
  same_world;
  (match goal with
   | |- context [value this props ?W] => destruct (value this props W) as [w2 [v|e]]
   end);
  (destruct (unLock lockerCls) as [u|]; simpl; [ | reflexivity ]);
  (destruct (u name (ext w2)) as [s3 [[]|er]]; simpl; same_world).
Qed.

(** *** What a computation leaves untouched *)

Lemma grows_refl P w : grows P w w.
Proof.
  exists []. rewrite app_nil_r. repeat split; auto.
Qed.

Lemma grows_trans P w1 w2 w3 : grows P w1 w2 -> grows P w2 w3 -> grows P w1 w3.
Proof.
  intros (e1 & T1 & F1 & R1 & L1 & J1) (e2 & T2 & F2 & R2 & L2 & J2).
  exists (e1 ++ e2)%list. rewrite T2, T1, app_assoc.
  repeat split; try congruence. apply Forall_app; auto.
Qed.

Lemma grows_add_events (P : event -> Prop) evs w :
  Forall P evs -> grows P w (add_events evs w).
Proof.
  intros F. exists evs. repeat split; auto.
Qed.

Lemma grows_set_ext P s w : grows P w (set_ext s w).
Proof.
  exists []. simpl. rewrite app_nil_r. repeat split; auto.
Qed.

Lemma adds_ret {A} P (a : A) : adds P (ret a).
Proof. intros w. apply grows_refl. Qed.

Lemma adds_throw {A} P e : adds P (@throw _ A e).
Proof. intros w. apply grows_refl. Qed.

Lemma adds_read {A} P (f : outside -> A) : adds P (read f).
Proof. intros w. apply grows_refl. Qed.

Lemma adds_emit (P : event -> Prop) e : P e -> adds P (emit e).
Proof.
  intros Pe w. apply (grows_add_events P [e]). auto.
Qed.

Lemma adds_extern {A} P (f : outside -> outside * result A) : adds P (extern f).
Proof.
  intros w. unfold extern. destruct (f (ext w)) as [s r]. apply grows_set_ext.
Qed.

Lemma adds_bind {A B} P (m : M A) (k : A -> M B) :
  adds P m -> (forall a, adds P (k a)) -> adds P (bind m k).
Proof.
  intros Hm Hk w. unfold bind. specialize (Hm w).
  destruct (m w) as [w' [a|e]]; simpl in *; auto.
  eapply grows_trans; [ exact Hm | apply Hk ].
Qed.

Lemma adds_catch {A} P (m : M A) (h : any -> M A) :
  adds P m -> (forall e, adds P (h e)) -> adds P (catch m h).
Proof.
  intros Hm Hh w. unfold catch. specialize (Hm w).
  destruct (m w) as [w' [a|e]]; simpl in *; auto.
  eapply grows_trans; [ exact Hm | apply Hh ].
Qed.

Lemma adds_finally {A} P (m : M A) (f : M unit) :
  adds P m -> adds P f -> adds P (finally m f).
Proof.
  intros Hm Hf w. unfold finally. specialize (Hm w).
  destruct (m w) as [w' r]. specialize (Hf w').
  destruct (f w') as [w'' [u|e]]; simpl in *; eapply grows_trans; eauto.
Qed.

Create HintDb frame.
#[local] Hint Resolve adds_ret adds_throw adds_read adds_extern adds_emit
  adds_bind adds_catch adds_finally : frame.

Lemma SchedulerLock_value_adds name methodName lt wi wt value this props :
  (forall this props, adds quiet (value this props)) ->
  adds quiet (SchedulerLock_value name methodName lt wi wt value this props).
Proof.
  intros Hv. unfold SchedulerLock_value, Locker_getInstance, logger_info,
    logger_warn, logger_error.
  apply adds_bind.
  { apply adds_bind; auto with frame. intros a. destruct (truthy a); auto with frame. }
  intros opts. destruct (helper.isEmpty opts); auto with frame.
  apply adds_bind.
  { apply adds_bind. { apply adds_emit. reflexivity. }
    intros _ w. destruct (getInstance opts (ext w)) as [s l]. apply grows_set_ext. }
  intros [lockerCls|]; auto with frame.
  apply adds_bind.
  { destruct (_ || _); apply adds_catch; intros;
      repeat (apply adds_bind; intros); auto with frame;
      apply adds_emit; reflexivity. }
  intros [|].
  - apply adds_finally.
    + apply adds_catch; intros; auto with frame.
      repeat (apply adds_bind; intros); auto with frame; apply adds_emit; reflexivity.
    + destruct (unLock lockerCls); auto with frame.
      apply adds_catch; intros; repeat (apply adds_bind; intros); auto with frame;
        apply adds_emit; reflexivity.
  - apply adds_bind; intros; auto with frame. apply adds_emit. reflexivity.
Qed.

Lemma apply_adds m : forall this props, adds quiet (apply m this props).
Proof.
  induction m as [body | name methodName lt wi wt value IH]; intros this props; simpl.
  - apply adds_extern.
  - apply SchedulerLock_value_adds. exact IH.
Qed.

(** *** The four ways a call of the installed method can go *)

Section Call.

Variables (name : option string) (methodName : string).
Variables (lt wi wt : option Z) (m : method outside receiver).
Variables (this : receiver) (props : list any) (w : world).

Local Abbreviation opts := (redisOptions_of this (ext w)).
Local Abbreviation call := (apply (Locked name methodName lt wi wt m) this props w).

Lemma Locked_no_options :
  helper.isEmpty opts = true -> call = (w, Throw config_error).
Proof.
  intros E. simpl. rewrite SchedulerLock_value_steps.
  cbv zeta. rewrite E. reflexivity.
Qed.

Lemma Locked_no_client s0 :
  helper.isEmpty opts = false ->
  getInstance opts (ext w) = (s0, None) ->
  call = (set_ext s0 (add_events [GotInstance opts] w),
          Throw (connection_error methodName)).
Proof.
  intros E G. simpl. rewrite SchedulerLock_value_steps.
  cbv zeta. rewrite E, G. reflexivity.
Qed.

Lemma Locked_not_acquired s0 lockerCls s1 r :
  helper.isEmpty opts = false ->
  getInstance opts (ext w) = (s0, Some lockerCls) ->
  acquire lockerCls name lt wi wt s0 = (s1, r) ->
  acquired r = false ->
  call =
  (add_events [skip_warning name methodName]
     (set_ext s1
        (add_events (GotInstance opts :: acquire_event name lt wi wt
                     :: rejection_log r) w)),
   Ok Undefined).
Proof.
  intros E G A F. simpl. rewrite SchedulerLock_value_steps.
  cbv zeta. rewrite E, G, A, F. reflexivity.
Qed.

Lemma Locked_acquired s0 lockerCls s1 r :
  helper.isEmpty opts = false ->
  getInstance opts (ext w) = (s0, Some lockerCls) ->
  acquire lockerCls name lt wi wt s0 = (s1, r) ->
  acquired r = true ->
  call =
  (let (w2, out) :=
     apply m this props
       (add_events [executed_message name; Applied this props]
          (set_ext s1
             (add_events [GotInstance opts; acquire_event name lt wi wt] w))) in
   (release lockerCls name w2, out)).
Proof.
  intros E G A F. simpl. rewrite SchedulerLock_value_steps.
  cbv zeta. rewrite E, G, A, F.
  destruct r as [[|]|er]; try discriminate. reflexivity.
Qed.

End Call.

Lemma acquired_false_cases (r : result bool) :
  acquired r = false <-> r = Ok false \/ exists er, r = Throw er.
Proof.
  destruct r as [[|]|er]; simpl; split; intros; try discriminate; eauto.
  - destruct H0 as [|[? ?]]; discriminate.
Qed.

Lemma release_trace lockerCls name w2 :
  trace (release lockerCls name w2) =
  (trace w2 ++
   match unLock lockerCls with
   | None => []
   | Some unLock => CalledUnLock name :: rejection_log (snd (unLock name (ext w2)))
   end)%list.
Proof.
  unfold release. destruct (unLock lockerCls) as [u|].
  - destruct (u name (ext w2)) as [s r]. reflexivity.
  - rewrite app_nil_r. reflexivity.
Qed.

(** *** [SchedulerLock]: the installed method *)

(** C1 (amended): when the acquisition fails, that is when the promise
    of [lock] / [waitLock] resolves to [false] or is rejected, the
    installed method logs the rejection if there is one, logs the
    warning that names the lock and the method, and resolves to
    [undefined]: the original method is not applied and nothing is
    raised.  When [Locker.getInstance] gives no client, the call is
    rejected with the error "Redis connection failed ..." instead, again
    without applying the original method. *)
Theorem SchedulerLock_skips_when_not_acquired
    name methodName lt wi wt m this props w :
  helper.isEmpty (redisOptions_of this (ext w)) = false ->
  (forall s0 lockerCls s1 r,
      getInstance (redisOptions_of this (ext w)) (ext w) = (s0, Some lockerCls) ->
      acquire lockerCls name lt wi wt s0 = (s1, r) ->
      r = Ok false \/ (exists er, r = Throw er) ->
      apply (Locked name methodName lt wi wt m) this props w =
      (set_ext s1
         (add_events
            (GotInstance (redisOptions_of this (ext w))
             :: acquire_event name lt wi wt
             :: rejection_log r ++ [skip_warning name methodName]) w),
       Ok Undefined))
  /\
  (forall s0,
      getInstance (redisOptions_of this (ext w)) (ext w) = (s0, None) ->
      apply (Locked name methodName lt wi wt m) this props w =
      (set_ext s0 (add_events [GotInstance (redisOptions_of this (ext w))] w),
       Throw (connection_error methodName))).
Proof.
  intros E. split.
  - intros s0 lockerCls s1 r G A F. apply acquired_false_cases in F.
    rewrite (Locked_not_acquired _ _ _ _ _ _ _ _ _ _ _ _ _ E G A F).
    same_world.
  - intros s0 G. apply Locked_no_client; assumption.
Qed.

(** C2: when the lock is acquired, the installed method logs that, then
    applies the original method to the receiver and the arguments it was
    called with, and ends as the original method ended: with its value,
    or with the error it raised.  In both cases the [finally] block runs
    on the state the original method left: with no [unLock] on the
    client it does nothing, otherwise it calls [unLock(name)] once and
    only logs a rejection. *)
Theorem SchedulerLock_applies_then_releases
    name methodName lt wi wt m this props w s0 lockerCls s1 :
  helper.isEmpty (redisOptions_of this (ext w)) = false ->
  getInstance (redisOptions_of this (ext w)) (ext w) = (s0, Some lockerCls) ->
  acquire lockerCls name lt wi wt s0 = (s1, Ok true) ->
  let w1 :=
    set_ext s1
      (add_events [GotInstance (redisOptions_of this (ext w));
                   acquire_event name lt wi wt;
                   executed_message name;
                   Applied this props] w) in
  let w2 := fst (apply m this props w1) in
  apply (Locked name methodName lt wi wt m) this props w =
    (release lockerCls name w2, snd (apply m this props w1))
  /\ ext (release lockerCls name w2) =
     match unLock lockerCls with
     | None => ext w2
     | Some unLock => fst (unLock name (ext w2))
     end
  /\ trace (release lockerCls name w2) =
     (trace w2 ++
      match unLock lockerCls with
      | None => []
      | Some unLock =>
          CalledUnLock name ::
          match snd (unLock name (ext w2)) with
          | Ok _ => []
          | Throw er => [LoggedError er]
          end
      end)%list.
Proof.
  intros E G A w1 w2. split; [ | split ].
  - rewrite (Locked_acquired _ _ _ _ _ _ _ _ _ _ _ _ _ E G A eq_refl).
    subst w2 w1.
    match goal with
    | |- (let (_, _) := apply m this props ?a in _) = (release _ _ (fst (apply m this props ?b)), _) =>
        replace a with b by same_world
    end.
    destruct (apply m this props _) as [w2 out]. reflexivity.
  - unfold release. destruct (unLock lockerCls) as [u|]; [ | reflexivity ].
    destruct (u name (ext w2)) as [s r]. reflexivity.
  - rewrite release_trace. destruct (unLock lockerCls) as [u|]; reflexivity.
Qed.

Lemma Locked_begins name methodName lt wi wt m this props w :
  helper.isEmpty (redisOptions_of this (ext w)) = false ->
  exists evs,
    trace (fst (apply (Locked name methodName lt wi wt m) this props w)) =
    (trace w ++ GotInstance (redisOptions_of this (ext w))
       :: match snd (getInstance (redisOptions_of this (ext w)) (ext w)) with
          | Some _ => acquire_event name lt wi wt :: evs
          | None => []
          end)%list.
Proof.
  intros E.
  destruct (getInstance (redisOptions_of this (ext w)) (ext w))
    as [s0 [lockerCls|]] eqn:G; simpl snd.
  2:{ exists []. rewrite (Locked_no_client _ _ _ _ _ _ _ _ _ _ E G). reflexivity. }
  destruct (acquire lockerCls name lt wi wt s0) as [s1 r] eqn:A.
  destruct (acquired r) eqn:F.
  - rewrite (Locked_acquired _ _ _ _ _ _ _ _ _ _ _ _ _ E G A F).
    match goal with
    | |- context [apply m this props ?a] =>
        destruct (apply_adds m this props a) as (evs & T & _);
        destruct (apply m this props a) as [w2 out]
    end.
    simpl in *. rewrite release_trace, T. simpl. rewrite <- !app_assoc. simpl.
    eexists. reflexivity.
  - rewrite (Locked_not_acquired _ _ _ _ _ _ _ _ _ _ _ _ _ E G A F).
    simpl. rewrite <- app_assoc. simpl. eexists. reflexivity.
Qed.

(** C3 (amended): the options are [config("SchedulerLock", "db")] when
    that is truthy and [config("redis", "db")] otherwise.  When what was
    picked is empty, which is so whenever both are empty, and also when
    the first is truthy and empty ([{}], [[]], white space) whatever the
    second holds, the call is rejected at once with the configuration
    error and nothing else happens.  Otherwise the first thing the call
    does is [Locker.getInstance] on the options picked. *)
Theorem SchedulerLock_picks_first_truthy_options
    name methodName lt wi wt m this props w :
  let first := app_config this "SchedulerLock" "db" (ext w) in
  let second := app_config this "redis" "db" (ext w) in
  let picked := if truthy first then first else second in
  redisOptions_of this (ext w) = picked
  /\ (helper.isEmpty first = true -> helper.isEmpty second = true ->
      helper.isEmpty picked = true)
  /\ (helper.isEmpty picked = true ->
      apply (Locked name methodName lt wi wt m) this props w =
      (w, Throw config_error))
  /\ (helper.isEmpty picked = false ->
      exists evs,
        trace (fst (apply (Locked name methodName lt wi wt m) this props w)) =
        (trace w ++ GotInstance picked :: evs)%list).
Proof.
  intros first second picked.
  assert (P : redisOptions_of this (ext w) = picked) by reflexivity.
  split; [ exact P | split; [ | split ] ].
  - intros E1 E2. subst picked. destruct (truthy first); assumption.
  - intros E. rewrite <- P in E. apply Locked_no_options. exact E.
  - intros E. rewrite <- P in *.
    destruct (Locked_begins name methodName lt wi wt m this props w E) as [evs T].
    rewrite T. eexists. reflexivity.
Qed.

(** C10: when the acquisition fails the promise of the installed method
    resolves to [undefined], whatever the original method is; a call
    that held the lock and whose original method returned [undefined]
    resolves to the same. *)
Theorem skipped_call_resolves_to_undefined
    name methodName lt wi wt m this props w s0 lockerCls s1 r :
  helper.isEmpty (redisOptions_of this (ext w)) = false ->
  getInstance (redisOptions_of this (ext w)) (ext w) = (s0, Some lockerCls) ->
  acquire lockerCls name lt wi wt s0 = (s1, r) ->
  acquired r = false ->
  snd (apply (Locked name methodName lt wi wt m) this props w) = Ok Undefined
  /\
  (forall m' w' s0' lockerCls' s1',
      helper.isEmpty (redisOptions_of this (ext w')) = false ->
      getInstance (redisOptions_of this (ext w')) (ext w') = (s0', Some lockerCls') ->
      acquire lockerCls' name lt wi wt s0' = (s1', Ok true) ->
      snd (apply m' this props
             (add_events [executed_message name; Applied this props]
                (set_ext s1'
                   (add_events [GotInstance (redisOptions_of this (ext w'));
                                acquire_event name lt wi wt] w')))) = Ok Undefined ->
      snd (apply (Locked name methodName lt wi wt m') this props w') =
      snd (apply (Locked name methodName lt wi wt m) this props w)).
Proof.
  intros E G A F.
  rewrite (Locked_not_acquired _ _ _ _ _ _ _ _ _ _ _ _ _ E G A F).
  split; [ reflexivity | ].
  intros m' w' s0' lockerCls' s1' E' G' A' R.
  rewrite (Locked_acquired _ _ _ _ _ _ _ _ _ _ _ _ _ E' G' A' eq_refl).
  destruct (apply m' this props _) as [w2 out]. exact R.
Qed.



(** *** The decorators *)

(** C4: [Scheduled] called with an empty expression (the empty string,
    or white space only) throws at once and leaves the registry, the
    listeners and the timers as they were; called with any other
    expression it throws nothing and gives a decorator which, for every
    method it is applied to, adds the pair of the expression and the
    method name to the registry under [SCHEDULE_KEY]. *)
Theorem Scheduled_fails_fast_or_records cron w :
  Scheduled "" w = (w, Throw (Error "ScheduleJob rule is not defined"))
  /\ (helper.isEmpty (Str cron) = true ->
      Scheduled cron w = (w, Throw (Error "ScheduleJob rule is not defined")))
  /\ (helper.isEmpty (Str cron) = false ->
      exists decorator,
        Scheduled cron w = (w, Ok decorator) /\
        forall target propertyKey descriptor w',
          decorator target propertyKey descriptor w' =
          (set_registry
             (registry w' ++
              [{| decoratorNameKey := SCHEDULE_KEY;
                  data := {| cron := cron; method_name := propertyKey |};
                  attached_to := target;
                  propertyName := propertyKey |}]) w',
           Ok tt)).
Proof.
  split; [ reflexivity | split ]; intros E; unfold Scheduled; rewrite E.
  - reflexivity.
  - eexists. split; [ reflexivity | ]. intros. reflexivity.
Qed.

(** C5: applied to a method of a component whose type is ["CONTROLLER"],
    the decorator of [SchedulerLock] throws and gives no descriptor;
    for every other type it throws nothing and gives the descriptor that
    holds the installed method around the original one. *)
Theorem SchedulerLock_refuses_controllers
    name lt wi wt target methodName descriptor w :
  (getType target = "CONTROLLER" ->
   SchedulerLock name lt wi wt target methodName descriptor w =
   (w, Throw (Error "SchedulerLock decorator cannot be used in the controller class.")))
  /\
  (getType target <> "CONTROLLER" ->
   exists name',
     SchedulerLock name lt wi wt target methodName descriptor w =
     (w, Ok (name',
             {| value := Locked name' methodName lt wi wt (value descriptor);
                configurable := configurable descriptor;
                enumerable := enumerable descriptor;
                writable := true |}))).
Proof.
  unfold SchedulerLock. split; intros T.
  - rewrite T. reflexivity.
  - apply String.eqb_neq in T. rewrite T. eexists. reflexivity.
Qed.

Lemma default_name_not_empty target methodName :
  helper.isEmpty (Str (default_name target methodName)) = false.
Proof.
  unfold default_name. generalize (if truthy (of_string (getIdentifier target))
    then template (getIdentifier target)
    else match constructor_name target with Some n => n | None => "" end).
  intros identifier. simpl.
  induction identifier as [|c identifier IH].
  - reflexivity.
  - change (helper.is_space c && helper.blank (identifier ++ "_" ++ methodName) = false).
    rewrite IH. apply andb_false_r.
Qed.

(** The variable [name] of a call of [SchedulerLock]: not empty once the
    decorator was applied, and then left alone by every later
    application of the same decorator. *)
Lemma SchedulerLock_name_settled
    name lt wi wt target methodName descriptor w name' descriptor' :
  SchedulerLock name lt wi wt target methodName descriptor w
    = (w, Ok (name', descriptor')) ->
  helper.isEmpty (of_string name') = false /\
  forall target2 methodName2 descriptor2 w2,
    getType target2 <> "CONTROLLER" ->
    exists descriptor2',
      SchedulerLock name' lt wi wt target2 methodName2 descriptor2 w2
      = (w2, Ok (name', descriptor2')).
Proof.
  unfold SchedulerLock. destruct (getType target =? "CONTROLLER"); [ discriminate | ].
  intros E. injection E as <- _.
  assert (N : helper.isEmpty
                (of_string (if helper.isEmpty (of_string name)
                            then Some (default_name target methodName) else name)) = false).
  { destruct (helper.isEmpty (of_string name)) eqn:Em; [ | exact Em ].
    apply default_name_not_empty. }
  split; [ exact N | ].
  intros target2 methodName2 descriptor2 w2 T. apply String.eqb_neq in T.
  rewrite T, N. eexists. reflexivity.
Qed.


(** *** The callback of a timer *)

Lemma onTick_steps j w :
  onTick j w =
  match prop (job_instance j) (job_method j) (ext w) with
  | Function m =>
      match apply m (job_instance j) []
              (add_events [started_message j;
                           Invoked (job_instance j) (job_method j)] w) with
      | (w2, Ok res) => (w2, Ok res)
      | (w2, Throw e) => (add_events [LoggedError e] w2, Ok Undefined)
      end
  | _ =>
      (add_events [started_message j;
                   LoggedError (Error "instance[method] is not a function")] w,
       Ok Undefined)
  end.
Proof.
  run. unfold started_message. simpl.
  destruct (prop (job_instance j) (job_method j) (ext w)) as [|v|m]; simpl;
    try same_world.
  same_world.
  destruct (apply m (job_instance j) [] _) as [w2 [res|e]]; same_world.
Qed.

Lemma onTick_grows j w :
  raised (snd (onTick j w)) = false /\
  exists evs,
    trace (fst (onTick j w)) = (trace w ++ started_message j :: evs)%list /\
    Forall quiet evs /\
    registry (fst (onTick j w)) = registry w /\
    listeners (fst (onTick j w)) = listeners w /\
    timers (fst (onTick j w)) = timers w.
Proof.
  rewrite onTick_steps.
  destruct (prop (job_instance j) (job_method j) (ext w)) as [|v|m].
  1,2: split; [ reflexivity | ]; eexists; simpl;
       repeat split; repeat constructor; reflexivity.
  match goal with
  | |- context [apply m ?i ?p ?a] =>
      destruct (apply_adds m i p a) as (evs & T & F & R & L & J);
      destruct (apply m i p a) as [w2 [res|e]]
  end; simpl in *; (split; [ reflexivity | ]).
  - exists (Invoked (job_instance j) (job_method j) :: evs).
    rewrite T, <- app_assoc. repeat split; auto. constructor; auto. reflexivity.
  - exists (Invoked (job_instance j) (job_method j) :: evs ++ [LoggedError e])%list.
    rewrite T, <- !app_assoc. simpl.
    repeat split; auto. constructor; [ reflexivity | ].
    apply Forall_app. split; auto. repeat constructor.
Qed.

Lemma filter_quiet evs : Forall quiet evs -> filter is_started evs = [].
Proof.
  induction 1 as [|e evs Q _ IH]; simpl; auto. rewrite Q. exact IH.
Qed.

Lemma fire_grows i w :
  snd (fire i w) = Ok tt /\
  timers (fst (fire i w)) = timers w /\
  filter is_started (trace (fst (fire i w))) =
  (filter is_started (trace w) ++ firings (timers w) [i])%list.
Proof.
  unfold fire, firings. simpl. rewrite app_nil_r.
  destruct (nth_error (timers w) i) as [j|]; [ | rewrite app_nil_r; auto ].
  destruct (running j); [ | rewrite app_nil_r; auto ].
  unfold bind, ret.
  destruct (onTick_grows j w) as (R & evs & T & Q & _ & _ & J).
  destruct (onTick j w) as [w' [res|e]]; simpl in *; try discriminate.
  repeat split; auto.
  rewrite T, filter_app. simpl. rewrite (filter_quiet _ Q). reflexivity.
Qed.

Lemma drive_grows schedule : forall w,
  snd (drive schedule w) = Ok tt /\
  timers (fst (drive schedule w)) = timers w /\
  filter is_started (trace (fst (drive schedule w))) =
  (filter is_started (trace w) ++ firings (timers w) schedule)%list.
Proof.
  induction schedule as [|i rest IH]; intros w.
  - simpl. rewrite app_nil_r. auto.
  - simpl drive. unfold bind.
    destruct (fire_grows i w) as (R & J & T).
    destruct (fire i w) as [w' [[]|e]]; simpl in *; try discriminate.
    destruct (IH w') as (R' & J' & T').
    repeat split; auto; try congruence.
    rewrite T', T, J, <- app_assoc. f_equal.
    unfold firings. simpl. rewrite app_nil_r. reflexivity.
Qed.

(** C7: a firing logs the start message first and never ends in a thrown
    value.  When [instance[method]] is a function the callback calls it
    on the instance with no argument and ends with its value, or, when
    it raised, logs the error and ends normally.  So a driver that would
    stop at the first callback that throws goes through its whole
    schedule: every firing that names a started timer takes place, in
    order, whatever the firings before it did, and the timers stay as
    they are. *)
Theorem firing_never_throws :
  (forall j w,
      raised (snd (onTick j w)) = false /\
      exists evs,
        trace (fst (onTick j w)) = (trace w ++ started_message j :: evs)%list)
  /\
  (forall j w m,
      prop (job_instance j) (job_method j) (ext w) = Function m ->
      onTick j w =
      match apply m (job_instance j) []
              (add_events [started_message j;
                           Invoked (job_instance j) (job_method j)] w) with
      | (w2, Ok res) => (w2, Ok res)
      | (w2, Throw e) => (add_events [LoggedError e] w2, Ok Undefined)
      end)
  /\
  (forall schedule w,
      snd (drive schedule w) = Ok tt /\
      timers (fst (drive schedule w)) = timers w /\
      filter is_started (trace (fst (drive schedule w))) =
      (filter is_started (trace w) ++ firings (timers w) schedule)%list).
Proof.
  split; [ | split ].
  - intros j w. destruct (onTick_grows j w) as (R & evs & T & _).
    split; [ exact R | exists evs; exact T ].
  - intros j w m P. rewrite onTick_steps, P. reflexivity.
  - intros schedule w. apply drive_grows.
Qed.

(** *** The registrar *)

Lemma appStart_steps l w :
  appStart l w =
  match rejected (ext w) l with
  | Some e => (add_events (registration_log (ext w) l) w, Throw e)
  | None =>
      (set_timers (timers w ++ job_of (ext w) l)
         (add_events (registration_log (ext w) l) w),
       Ok tt)
  end.
Proof.
  run. unfold rejected, registration_log, job_of.
  destruct w as [t s r ls ts]. simpl.
  destruct (getInsByClass (l_container l) (l_target l) s) as [instance|]; simpl.
  2:{ unfold add_events, set_timers, set_trace. simpl. rewrite !app_nil_r. reflexivity. }
  destruct (isFunction _ && _); simpl.
  - destruct APP_DEBUG; destruct (CronJob_rejects (l_cron l));
      unfold add_events, set_timers, set_trace; simpl;
      rewrite ?app_nil_r; reflexivity.
  - unfold add_events, set_timers, set_trace. simpl. rewrite !app_nil_r. reflexivity.
Qed.

Lemma filter_remove_first {A} (f : A -> bool) l :
  filter f (remove_first f l) = tl (filter f l).
Proof.
  induction l as [|x l IH]; simpl; auto.
  destruct (f x) eqn:F; simpl; auto. rewrite F. exact IH.
Qed.

Lemma filter_negb_remove_first {A} (f : A -> bool) l :
  filter (fun x => negb (f x)) (remove_first f l) = filter (fun x => negb (f x)) l.
Proof.
  induction l as [|x l IH]; simpl; auto.
  destruct (f x) eqn:F; simpl; auto. rewrite F. simpl. rewrite IH. reflexivity.
Qed.

Lemma emit_step app eventName l ls w :
  for_each (l :: ls)
    (fun l : nat * string * Listener =>
       bind (take_off app eventName) (fun _ => appStart (snd l))) w =
  let w1 :=
    add_events (registration_log (ext w) (snd l))
      (set_listeners (remove_first (listens app eventName) (listeners w)) w) in
  match rejected (ext w) (snd l) with
  | Some e => (w1, Throw e)
  | None =>
      for_each ls
        (fun l : nat * string * Listener =>
           bind (take_off app eventName) (fun _ => appStart (snd l)))
        (set_timers (timers w ++ job_of (ext w) (snd l)) w1)
  end.
Proof.
  cbn [for_each]. unfold bind at 1. unfold bind at 1. unfold take_off at 1.
  rewrite appStart_steps. cbn [ext set_listeners].
  destruct (rejected (ext w) (snd l)); reflexivity.
Qed.

(** What emitting an event does, whatever the listeners do. *)
Lemma listeners_run app eventName ls : forall w,
  filter (listens app eventName) (listeners w) = ls ->
  let r :=
    for_each ls
      (fun l : nat * string * Listener =>
         bind (take_off app eventName) (fun _ => appStart (snd l))) w in
  snd r = match thrown (ext w) ls with Some e => Throw e | None => Ok tt end
  /\ timers (fst r) =
     (timers w ++ flat_map (job_of (ext w)) (map snd (returned (ext w) ls)))%list
  /\ trace (fst r) =
     (trace w ++ flat_map (registration_log (ext w)) (map snd (called (ext w) ls)))%list
  /\ filter (listens app eventName) (listeners (fst r)) = left_on (ext w) ls
  /\ filter (fun l => negb (listens app eventName l)) (listeners (fst r)) =
     filter (fun l => negb (listens app eventName l)) (listeners w)
  /\ ext (fst r) = ext w
  /\ registry (fst r) = registry w.
Proof.
  induction ls as [|l ls IH]; intros w F r; subst r.
  - simpl. rewrite !app_nil_r. repeat split; auto.
  - rewrite emit_step. cbv zeta.
    cbn [called returned left_on thrown].
    assert (F1 : filter (listens app eventName)
                   (remove_first (listens app eventName) (listeners w)) = ls).
    { rewrite filter_remove_first, F. reflexivity. }
    destruct (rejected (ext w) (snd l)) as [e|].
    + cbn [fst snd]. cbn [add_events set_trace set_listeners trace timers listeners
                          ext registry map flat_map].
      rewrite !app_nil_r, filter_negb_remove_first. repeat split; auto.
    + match goal with
      | |- context [for_each ls ?b ?w1] =>
          destruct (IH w1 F1) as (R & T & Tr & L & O & E & G)
      end.
      cbn [ext timers trace listeners registry set_timers set_listeners
           add_events set_trace] in R, T, Tr, L, O, E, G.
      rewrite R, T, Tr, L, O, E, G.
      cbn [map flat_map].
      rewrite filter_negb_remove_first, <- !app_assoc. repeat split; auto.
Qed.

Lemma app_emit_run app eventName w :
  let mine := filter (listens app eventName) (listeners w) in
  let r := app_emit app eventName w in
  snd r = match thrown (ext w) mine with Some e => Throw e | None => Ok tt end
  /\ timers (fst r) =
     (timers w ++ flat_map (job_of (ext w)) (map snd (returned (ext w) mine)))%list
  /\ trace (fst r) =
     (trace w ++ flat_map (registration_log (ext w)) (map snd (called (ext w) mine)))%list
  /\ filter (listens app eventName) (listeners (fst r)) = left_on (ext w) mine
  /\ filter (fun l => negb (listens app eventName l)) (listeners (fst r)) =
     filter (fun l => negb (listens app eventName l)) (listeners w)
  /\ ext (fst r) = ext w
  /\ registry (fst r) = registry w.
Proof.
  intros mine r. apply (listeners_run app eventName mine w eq_refl).
Qed.

(** When [CronJob] accepts the pattern of every listener that comes to
    ask for a timer, every listener returns. *)
Lemma all_accepted s ls :
  (forall l, In l ls -> job_of s (snd l) <> [] ->
             CronJob_rejects (l_cron (snd l)) = None) ->
  thrown s ls = None /\ returned s ls = ls /\ called s ls = ls /\ left_on s ls = [].
Proof.
  induction ls as [|l ls IH]; intros A; simpl; auto.
  assert (R : rejected s (snd l) = None).
  { unfold rejected. destruct (job_of s (snd l)) eqn:J; auto.
    apply A; [ left; reflexivity | rewrite J; discriminate ]. }
  rewrite R. destruct IH as (T & Rt & C & L).
  { intros x I. apply A. right. exact I. }
  rewrite T, Rt, C, L. auto.
Qed.

Lemma set_listeners_app l1 l2 w :
  set_listeners (listeners (set_listeners (listeners w ++ l1) w) ++ l2)
    (set_listeners (listeners w ++ l1) w)
  = set_listeners (listeners w ++ l1 ++ l2) w.
Proof.
  unfold set_listeners. simpl. rewrite app_assoc. reflexivity.
Qed.

Lemma set_listeners_nil w : set_listeners (listeners w ++ []) w = w.
Proof.
  destruct w. unfold set_listeners. simpl. rewrite app_nil_r. reflexivity.
Qed.

Lemma execInjectSchedule_steps target container method cron w :
  execInjectSchedule target container method cron w =
  (set_listeners
     (listeners w ++
      match getApp container with
      | Some app => [listener_of app target container (method, cron)]
      | None => []
      end) w,
   Ok tt).
Proof.
  unfold execInjectSchedule. destruct (getApp container) as [app|].
  - reflexivity.
  - rewrite set_listeners_nil. reflexivity.
Qed.

Lemma injectSchedule_inner target container meta vals : forall w,
  for_each vals
    (fun val : ScheduleMeta =>
       if truthy (Str (cron val)) && truthy (Str meta)
       then execInjectSchedule target container meta (cron val)
       else ret tt) w =
  (set_listeners (listeners w ++ pending target container [(meta, vals)]) w, Ok tt).
Proof.
  unfold pending, entries. simpl flat_map. rewrite app_nil_r.
  induction vals as [|val vals IH]; intros w.
  - simpl. destruct (getApp container); rewrite set_listeners_nil; reflexivity.
  - cbn [for_each]. unfold bind.
    assert (S1 : (if truthy (Str (cron val)) && truthy (Str meta)
                  then execInjectSchedule target container meta (cron val)
                  else ret tt) w =
                 (set_listeners
                    (listeners w ++
                     match getApp container with
                     | Some app =>
                         map (listener_of app target container)
                           (filter handed_on [(meta, cron val)])
                     | None => []
                     end) w, Ok tt)).
    { unfold handed_on. simpl.
      destruct (negb (cron val =? "") && negb (meta =? "")).
      - rewrite execInjectSchedule_steps. destruct (getApp container); reflexivity.
      - unfold ret. destruct (getApp container); simpl; rewrite set_listeners_nil; reflexivity. }
    rewrite S1, IH, set_listeners_app. f_equal. f_equal. f_equal.
    destruct (getApp container) as [app|]; [ | reflexivity ].
    rewrite <- map_app, <- filter_app. reflexivity.
Qed.

Lemma pending_cons target container entry metaDatas :
  pending target container (entry :: metaDatas) =
  (pending target container [(fst entry, snd entry)]
   ++ pending target container metaDatas)%list.
Proof.
  unfold pending, entries. simpl flat_map. rewrite app_nil_r.
  destruct (getApp container); [ | reflexivity ].
  rewrite filter_app, map_app. reflexivity.
Qed.

Lemma injectSchedule_steps target instance container w :
  injectSchedule target instance container w =
  (set_listeners
     (listeners w ++
      pending target container (recursiveGetMetadata SCHEDULE_KEY target (registry w)))
     w,
   Ok tt).
Proof.
  unfold injectSchedule, bind.
  generalize (recursiveGetMetadata SCHEDULE_KEY target (registry w)) as metaDatas.
  intros metaDatas. revert w.
  induction metaDatas as [|entry metaDatas IH]; intros w.
  - unfold pending. simpl. destruct (getApp container); rewrite set_listeners_nil; reflexivity.
  - rewrite (pending_cons target container entry metaDatas).
    cbn [for_each]. unfold bind.
    rewrite injectSchedule_inner, IH, set_listeners_app. reflexivity.
Qed.

Lemma handed_on_spec meta cron :
  handed_on (meta, cron) = true <-> cron <> "" /\ meta <> "".
Proof.
  unfold handed_on. simpl. rewrite andb_true_iff, !negb_true_iff.
  rewrite !String.eqb_neq. tauto.
Qed.

(** C9 (amended): [injectSchedule] throws nothing and leaves one
    listener of [appStart] on the application for every entry of the
    metadata whose expression and method name are both not empty, and
    none at all when the container has no application.  When [appStart]
    is emitted and [CronJob] accepts the expression of every listener
    that asks for a timer, nothing is thrown and every listener is run,
    each on its own: the one whose target has no instance, or whose
    [instance[method]] is no function, asks for no timer and gets none;
    every other one (its expression is not empty) gets its timer,
    started, whatever the listeners before it did. *)
Theorem registrar_skips_what_it_cannot_run :
  (forall target instance container w,
      injectSchedule target instance container w =
      (set_listeners
         (listeners w ++
          match getApp container with
          | Some app =>
              map (listener_of app target container)
                (filter handed_on
                   (entries (recursiveGetMetadata SCHEDULE_KEY target (registry w))))
          | None => []
          end) w,
       Ok tt))
  /\
  (forall meta cron, handed_on (meta, cron) = true <-> cron <> "" /\ meta <> "")
  /\
  (forall app w,
      let mine := filter (listens app "appStart") (listeners w) in
      (forall l, In l mine -> job_of (ext w) (snd l) <> [] ->
                 CronJob_rejects (l_cron (snd l)) = None) ->
      snd (app_emit app "appStart" w) = Ok tt /\
      timers (fst (app_emit app "appStart" w)) =
      (timers w ++ flat_map (job_of (ext w)) (map snd mine))%list)
  /\
  (forall s l,
      (getInsByClass (l_container l) (l_target l) s = None -> job_of s l = [])
      /\
      (forall instance,
          getInsByClass (l_container l) (l_target l) s = Some instance ->
          isFunction (prop instance (l_method l) s) = false ->
          job_of s l = [])
      /\
      (forall instance,
          getInsByClass (l_container l) (l_target l) s = Some instance ->
          isFunction (prop instance (l_method l) s) = true ->
          l_cron l <> "" ->
          job_of s l =
          [{| cronTime := l_cron l;
              job_name := job_name_of (l_target l) (l_method l);
              job_instance := instance;
              job_method := l_method l;
              running := true |}])).
Proof.
  split; [ | split; [ | split ] ].
  - intros. apply injectSchedule_steps.
  - apply handed_on_spec.
  - intros app w mine A.
    destruct (app_emit_run app "appStart" w) as (R & T & _).
    destruct (all_accepted (ext w) mine A) as (Th & Rt & _).
    fold mine in R, T. rewrite Th in R. rewrite Rt in T. split; assumption.
  - intros s l. unfold job_of. repeat split.
    + intros ->. reflexivity.
    + intros instance -> ->. reflexivity.
    + intros instance -> -> N. apply String.eqb_neq in N. simpl. rewrite N. reflexivity.
Qed.


(** *** More on the installed method *)

(** X1: the installed method touches nothing but the trace and, through
    the client and the original method, the outside: if the original
    method, whatever it is, only adds to the trace and leaves the
    registry, the listeners and the timers as they are, so does the
    method [SchedulerLock] installs around it, however the call goes. *)
Theorem installed_method_only_appends
    name methodName lt wi wt (value : receiver -> list any -> M any) this props :
  (forall w,
      (exists evs, trace (fst (value this props w)) = (trace w ++ evs)%list)
      /\ registry (fst (value this props w)) = registry w
      /\ listeners (fst (value this props w)) = listeners w
      /\ timers (fst (value this props w)) = timers w) ->
  forall w,
    let w' := fst (SchedulerLock_value name methodName lt wi wt value this props w) in
    (exists evs, trace w' = (trace w ++ evs)%list)
    /\ registry w' = registry w
    /\ listeners w' = listeners w
    /\ timers w' = timers w.
Proof.
  intros Hv.
  assert (V : adds (fun _ => True) (value this props)).
  { intros w. destruct (Hv w) as ((evs & T) & R & L & J).
    exists evs. repeat split; auto. apply Forall_forall. auto. }
  assert (W : adds (fun _ => True)
                (SchedulerLock_value name methodName lt wi wt value this props)).
  { unfold SchedulerLock_value, Locker_getInstance, logger_info,
      logger_warn, logger_error.
    apply adds_bind.
    { apply adds_bind; auto with frame. intros a. destruct (truthy a); auto with frame. }
    intros opts. destruct (helper.isEmpty opts); auto with frame.
    apply adds_bind.
    { apply adds_bind. { apply adds_emit. exact I. }
      intros _ w. destruct (getInstance opts (ext w)) as [s l]. apply grows_set_ext. }
    intros [lockerCls|]; auto with frame.
    apply adds_bind.
    { destruct (_ || _); apply adds_catch; intros;
        repeat (apply adds_bind; intros); auto with frame. }
    intros [|].
    - apply adds_finally.
      + apply adds_catch; intros;
          repeat (apply adds_bind; intros); auto with frame.
      + destruct (unLock lockerCls); auto with frame;
          apply adds_catch; intros; repeat (apply adds_bind; intros); auto with frame.
    - apply adds_bind; intros; auto with frame. }
  intros w w'. destruct (W w) as (evs & T & _ & R & L & J).
  split; [ exists evs; exact T | auto ].
Qed.

(** X2: in one call of the installed method the business method is
    applied once when the lock is held and not at all otherwise (empty
    options, no client, failed acquisition); [unLock] is called once
    when the lock is held and the client has it, and never when the lock
    is not held. *)
Theorem business_method_runs_once_under_the_lock
    name methodName lt wi wt body this props w :
  let t := trace (fst (apply (Locked name methodName lt wi wt (Native body))
                         this props w)) in
  filter is_Applied t =
    (filter is_Applied (trace w)
     ++ match holder name lt wi wt this (ext w) with
        | Some _ => [Applied this props]
        | None => []
        end)%list
  /\
  filter is_CalledUnLock t =
    (filter is_CalledUnLock (trace w)
     ++ match holder name lt wi wt this (ext w) with
        | Some lockerCls =>
            match unLock lockerCls with
            | Some _ => [CalledUnLock name]
            | None => []
            end
        | None => []
        end)%list.
Proof.
  intros t. subst t. unfold holder.
  destruct (helper.isEmpty (redisOptions_of this (ext w))) eqn:E.
  { rewrite (Locked_no_options _ _ _ _ _ _ _ _ _ E). simpl. rewrite !app_nil_r. auto. }
  destruct (getInstance (redisOptions_of this (ext w)) (ext w)) as [s0 [lockerCls|]] eqn:G.
  2:{ rewrite (Locked_no_client _ _ _ _ _ _ _ _ _ _ E G). simpl.
      rewrite !filter_app. simpl. auto. }
  destruct (acquire lockerCls name lt wi wt s0) as [s1 r] eqn:A. simpl snd.
  destruct (acquired r) eqn:F.
  - rewrite (Locked_acquired _ _ _ _ _ _ _ _ _ _ _ _ _ E G A F).
    simpl apply. unfold extern.
    match goal with |- context [body this props ?s] => destruct (body this props s) as [s2 out] end.
    simpl fst. rewrite release_trace. simpl. rewrite !filter_app. simpl.
    unfold acquire_event, executed_message.
    destruct (retries wi wt); simpl;
      (destruct (unLock lockerCls) as [u|]; simpl;
       [ destruct (snd (u name s2)); simpl | ]); rewrite ?app_nil_r; auto.
  - rewrite (Locked_not_acquired _ _ _ _ _ _ _ _ _ _ _ _ _ E G A F).
    simpl. rewrite !filter_app. simpl.
    unfold acquire_event, skip_warning.
    destruct (retries wi wt); destruct r as [b|er]; simpl; rewrite ?filter_app; simpl;
      rewrite ?app_nil_r; auto.
Qed.

(** X3: when the lock is acquired, everything the original method does
    lies between the acquisition and the release: the trace of the call
    is the acquisition, the events of the original method, and then what
    the [finally] block adds, in the state the original method left. *)
Theorem original_method_runs_inside_the_lock
    name methodName lt wi wt m this props w s0 lockerCls s1 :
  helper.isEmpty (redisOptions_of this (ext w)) = false ->
  getInstance (redisOptions_of this (ext w)) (ext w) = (s0, Some lockerCls) ->
  acquire lockerCls name lt wi wt s0 = (s1, Ok true) ->
  let entered :=
    [GotInstance (redisOptions_of this (ext w)); acquire_event name lt wi wt;
     executed_message name; Applied this props] in
  let w2 := fst (apply m this props (set_ext s1 (add_events entered w))) in
  exists inner,
    trace w2 = (trace w ++ entered ++ inner)%list /\
    trace (fst (apply (Locked name methodName lt wi wt m) this props w)) =
    (trace w ++ entered ++ inner ++ release_events lockerCls name (ext w2))%list.
Proof.
  intros E G A entered w2.
  destruct (apply_adds m this props (set_ext s1 (add_events entered w)))
    as (inner & Tr & _).
  fold w2 in Tr. simpl in Tr.
  exists inner. split.
  - rewrite Tr, <- app_assoc. reflexivity.
  - rewrite (Locked_acquired _ _ _ _ _ _ _ _ _ _ _ _ _ E G A eq_refl).
    match goal with
    | |- context [apply m this props ?a] =>
        replace a with (set_ext s1 (add_events entered w)) by same_world
    end.
    assert (W : forall p : world * result any,
               fst (let (w2', out) := p in (release lockerCls name w2', out))
               = release lockerCls name (fst p)) by (intros [? ?]; reflexivity).
    rewrite W. fold w2. rewrite release_trace. unfold release_events.
    rewrite Tr, <- !app_assoc. reflexivity.
Qed.

(** *** The scheduler on a method under [SchedulerLock] *)

(** X4: in a firing of a method that [SchedulerLock] wrapped, what keeps
    the business method from running never reaches the timer: the
    configuration error and the connection error, which the installed
    method raises, are caught and logged by the callback, and a failed
    acquisition leaves the warning; each time the firing ends normally
    with [undefined]. *)
Theorem lock_failures_end_a_firing_normally
    j w name methodName lt wi wt m :
  prop (job_instance j) (job_method j) (ext w)
    = Function (Locked name methodName lt wi wt m) ->
  let this := job_instance j in
  let opts := redisOptions_of this (ext w) in
  let begun := [started_message j; Invoked this (job_method j)] in
  (helper.isEmpty opts = true ->
   onTick j w =
   (add_events (begun ++ [LoggedError config_error]) w, Ok Undefined))
  /\
  (forall s0,
      helper.isEmpty opts = false ->
      getInstance opts (ext w) = (s0, None) ->
      onTick j w =
      (set_ext s0
         (add_events (begun ++ [GotInstance opts;
                                LoggedError (connection_error methodName)]) w),
       Ok Undefined))
  /\
  (forall s0 lockerCls s1 r,
      helper.isEmpty opts = false ->
      getInstance opts (ext w) = (s0, Some lockerCls) ->
      acquire lockerCls name lt wi wt s0 = (s1, r) ->
      acquired r = false ->
      onTick j w =
      (set_ext s1
         (add_events (begun ++ GotInstance opts :: acquire_event name lt wi wt
                      :: rejection_log r ++ [skip_warning name methodName]) w),
       Ok Undefined)).
Proof.
  intros P this opts begun. rewrite onTick_steps, P. fold this. fold begun.
  split; [ | split ].
  - intros E.
    rewrite (Locked_no_options name methodName lt wi wt m this []
               (add_events begun w) E).
    same_world.
  - intros s0 E G.
    rewrite (Locked_no_client name methodName lt wi wt m this []
               (add_events begun w) s0 E G).
    same_world.
  - intros s0 lockerCls s1 r E G A F.
    rewrite (Locked_not_acquired name methodName lt wi wt m this []
               (add_events begun w) s0 lockerCls s1 r E G A F).
    same_world.
Qed.

(** *** Registration from end to end *)

Lemma listens_listener_of app target container e :
  listens app "appStart" (listener_of app target container e) = true.
Proof.
  unfold listens, listener_of. simpl. rewrite Nat.eqb_refl. reflexivity.
Qed.

Lemma filter_all {A} (f : A -> bool) l :
  (forall x, In x l -> f x = true) -> filter f l = l.
Proof.
  induction l as [|x l IH]; simpl; intros All; auto.
  rewrite (All x (or_introl eq_refl)), IH; auto.
Qed.

Lemma filter_none {A} (f : A -> bool) l :
  (forall x, In x l -> f x = false) -> filter f l = [].
Proof.
  induction l as [|x l IH]; simpl; intros All; auto.
  rewrite (All x (or_introl eq_refl)), IH; auto.
Qed.

Lemma filter_negb_all {A} (f : A -> bool) l :
  filter f l = [] -> filter (fun x => negb (f x)) l = l.
Proof.
  induction l as [|x l IH]; simpl; auto.
  destruct (f x); simpl; [ discriminate | ]. intros E. rewrite IH; auto.
Qed.

(** X5: when [CronJob] accepts the expression of every listener that
    asks for a timer, [injectSchedule] followed by the [appStart] of the
    application of its container throws nothing and starts, after the
    timers of the listeners that were waiting already, one timer for
    every entry of the metadata with an expression and a method name
    that are not empty, a live instance and a callable method, in the
    order of the metadata; it takes every listener of [appStart] off the
    application and leaves the outside and the registry alone. *)
Theorem injected_entries_start_on_appStart target instance container app w :
  getApp container = Some app ->
  let added :=
    map (listener_of app target container)
      (filter handed_on
         (entries (recursiveGetMetadata SCHEDULE_KEY target (registry w)))) in
  let waiting := filter (listens app "appStart") (listeners w) in
  (forall l, In l (waiting ++ added) -> job_of (ext w) (snd l) <> [] ->
             CronJob_rejects (l_cron (snd l)) = None) ->
  let run :=
    app_emit app "appStart" (fst (injectSchedule target instance container w)) in
  snd run = Ok tt
  /\ timers (fst run) =
     (timers w ++ flat_map (job_of (ext w)) (map snd (waiting ++ added)))%list
  /\ listeners (fst run) =
     filter (fun l => negb (listens app "appStart" l)) (listeners w)
  /\ ext (fst run) = ext w
  /\ registry (fst run) = registry w.
Proof.
  intros A added waiting Acc run. subst run.
  rewrite injectSchedule_steps. unfold pending. rewrite A. fold added.
  cbn [fst].
  destruct (app_emit_run app "appStart"
              (set_listeners (listeners w ++ added) w))
    as (R & T & _ & L & O & E & G).
  cbn [listeners set_listeners ext timers registry] in R, T, L, O, E, G.
  assert (In1 : filter (listens app "appStart") added = added).
  { apply filter_all. intros x I. apply in_map_iff in I as (e & <- & _).
    apply listens_listener_of. }
  assert (In2 : filter (fun l => negb (listens app "appStart" l)) added = []).
  { apply filter_none. intros x I. apply in_map_iff in I as (e & <- & _).
    rewrite listens_listener_of. reflexivity. }
  rewrite filter_app, In1 in R, T, L. fold waiting in R, T, L.
  rewrite filter_app, In2, app_nil_r in O.
  destruct (all_accepted (ext w) (waiting ++ added) Acc) as (Th & Rt & _ & Lo).
  rewrite Th in R. rewrite Rt in T. rewrite Lo in L.
  repeat split; auto.
  rewrite <- O. symmetry. apply filter_negb_all. exact L.
Qed.

(** X6: [execInjectSchedule] registers with [once], and a listener is
    taken off before it is called: after [appStart] the listeners of the
    event still on the application are those behind the first one whose
    expression [CronJob] threw back, so no listener is ever run twice;
    and when no expression is thrown back none is left, and a second
    [appStart] runs nothing, creates no timer and changes nothing. *)
Theorem appStart_registers_once target container method cron app w :
  getApp container = Some app ->
  let registered := fst (execInjectSchedule target container method cron w) in
  let mine :=
    (filter (listens app "appStart") (listeners w)
     ++ [listener_of app target container (method, cron)])%list in
  let first := app_emit app "appStart" registered in
  filter (listens app "appStart") (listeners (fst first)) = left_on (ext w) mine
  /\
  ((forall l, In l mine -> job_of (ext w) (snd l) <> [] ->
              CronJob_rejects (l_cron (snd l)) = None) ->
   snd first = Ok tt
   /\ app_emit app "appStart" (fst first) = (fst first, Ok tt)).
Proof.
  intros A registered mine first.
  assert (M : filter (listens app "appStart") (listeners registered) = mine).
  { subst registered. rewrite execInjectSchedule_steps, A. cbn [fst listeners set_listeners].
    rewrite filter_app. cbn [filter]. rewrite listens_listener_of. reflexivity. }
  destruct (app_emit_run app "appStart" registered) as (R & _ & _ & L & _ & E & _).
  rewrite M in R, L.
  assert (X : ext registered = ext w).
  { subst registered. rewrite execInjectSchedule_steps. reflexivity. }
  rewrite X in R, L. fold first in R, L, E.
  split; [ exact L | ].
  intros Acc. destruct (all_accepted (ext w) mine Acc) as (Th & _ & _ & Lo).
  rewrite Th in R. split; [ exact R | ].
  unfold app_emit at 1. rewrite L, Lo. reflexivity.
Qed.

(** *** The two decorators on one method *)

(** X7: on a method of a component that is no controller, [Scheduled]
    with an expression that is not empty and [SchedulerLock] can be
    written in either order: the registry gets the same record and the
    descriptor the same installed method. *)
Theorem decorators_commute cron name lt wi wt target methodName descriptor w :
  helper.isEmpty (Str cron) = false ->
  getType target <> "CONTROLLER" ->
  exists decorator,
    Scheduled cron w = (w, Ok decorator) /\
    bind (SchedulerLock name lt wi wt target methodName descriptor)
      (fun installed =>
         bind (decorator target methodName (snd installed))
           (fun _ => ret installed)) w
    =
    bind (decorator target methodName descriptor)
      (fun _ => SchedulerLock name lt wi wt target methodName descriptor) w
    /\
    raised (snd (bind (decorator target methodName descriptor)
                   (fun _ => SchedulerLock name lt wi wt target methodName
                               descriptor) w)) = false.
Proof.
  intros E T. apply String.eqb_neq in T.
  unfold Scheduled. rewrite E. eexists. split; [ reflexivity | ].
  unfold bind, SchedulerLock, attachPropertyData, ret. rewrite T. simpl.
  split; reflexivity.
Qed.

(** X8: the name of the lock belongs to the call of [SchedulerLock],
    not to the method: when the decorator one call returned is applied
    to a second method, that method is installed with the name the first
    application left, which is not empty, whatever the second method and
    its target are called. *)
Theorem shared_decorator_shares_the_lock_name
    name lt wi wt target1 method1 descriptor1 w1 name1 installed1
    target2 method2 descriptor2 w2 :
  SchedulerLock name lt wi wt target1 method1 descriptor1 w1
    = (w1, Ok (name1, installed1)) ->
  getType target2 <> "CONTROLLER" ->
  helper.isEmpty (of_string name1) = false
  /\ value installed1 = Locked name1 method1 lt wi wt (value descriptor1)
  /\ SchedulerLock name1 lt wi wt target2 method2 descriptor2 w2 =
     (w2, Ok (name1,
              {| value := Locked name1 method2 lt wi wt (value descriptor2);
                 configurable := configurable descriptor2;
                 enumerable := enumerable descriptor2;
                 writable := true |})).
Proof.
  intros First T.
  destruct (SchedulerLock_name_settled _ _ _ _ _ _ _ _ _ _ First) as [N _].
  split; [ exact N | split ].
  - unfold SchedulerLock in First.
    destruct (getType target1 =? "CONTROLLER"); [ discriminate | ].
    injection First as <- <-. reflexivity.
  - apply String.eqb_neq in T. unfold SchedulerLock. rewrite T, N. reflexivity.
Qed.

Lemma registration_log_length s l :
  length (registration_log s l) =
  if APP_DEBUG then length (job_of s l) else 0%nat.
Proof.
  unfold registration_log.
  assert (J : job_of s l = [] \/ exists j, job_of s l = [j]).
  { unfold job_of. destruct (getInsByClass _ _ _); auto.
    destruct (isFunction _ && _); eauto. }
  destruct J as [-> | [j ->]]; destruct APP_DEBUG; reflexivity.
Qed.

Lemma rejected_asks s l e : rejected s l = Some e -> length (job_of s l) = 1%nat.
Proof.
  unfold rejected, job_of. destruct (getInsByClass _ _ _); [ | discriminate ].
  destruct (isFunction _ && _); [ reflexivity | discriminate ].
Qed.

Lemma logs_and_timers s ls :
  length (flat_map (registration_log s) (map snd (called s ls))) =
  if APP_DEBUG
  then (length (flat_map (job_of s) (map snd (returned s ls)))
        + match thrown s ls with Some _ => 1 | None => 0 end)%nat
  else 0%nat.
Proof.
  induction ls as [|l ls IH]; cbn [called returned thrown map flat_map].
  - simpl. destruct APP_DEBUG; reflexivity.
  - destruct (rejected s (snd l)) as [e|] eqn:R.
    + cbn [map flat_map]. rewrite app_nil_r, registration_log_length.
      rewrite (rejected_asks _ _ _ R). destruct APP_DEBUG; reflexivity.
    + cbn [map flat_map]. rewrite !length_app, IH, registration_log_length.
      destruct APP_DEBUG; [ | reflexivity ].
      rewrite Nat.add_assoc. reflexivity.
Qed.

(** X14: what [appStart] does is traced only under [APP_DEBUG]: without
    the flag nothing is logged; with it there is one line of the logger
    for every timer created, and one more, written before [CronJob] is
    asked, for the listener whose expression [CronJob] threw back, if
    there is one. *)
Theorem registration_is_traced_only_under_APP_DEBUG app eventName w :
  let run := app_emit app eventName w in
  exists created logs,
    timers (fst run) = (timers w ++ created)%list
    /\ trace (fst run) = (trace w ++ logs)%list
    /\ length logs =
       if APP_DEBUG
       then (length created + if raised (snd run) then 1 else 0)%nat
       else 0%nat.
Proof.
  intros run. destruct (app_emit_run app eventName w) as (R & T & Tr & _).
  fold run in R, T, Tr.
  eexists. eexists. split; [ exact T | split; [ exact Tr | ] ].
  rewrite logs_and_timers, R.
  destruct (thrown _ _); reflexivity.
Qed.

(** X15: when a scheduled business method under [SchedulerLock] raises
    while it holds the lock, the lock is released first, then the
    callback of the timer logs the error, and the firing ends normally:
    a failed job does not keep its lock. *)
Theorem failed_job_releases_its_lock
    j w name methodName lt wi wt body s0 lockerCls s1 s2 e :
  prop (job_instance j) (job_method j) (ext w)
    = Function (Locked name methodName lt wi wt (Native body)) ->
  let this := job_instance j in
  let opts := redisOptions_of this (ext w) in
  helper.isEmpty opts = false ->
  getInstance opts (ext w) = (s0, Some lockerCls) ->
  acquire lockerCls name lt wi wt s0 = (s1, Ok true) ->
  body this [] s1 = (s2, Throw e) ->
  let held :=
    set_ext s2
      (add_events [started_message j; Invoked this (job_method j);
                   GotInstance opts; acquire_event name lt wi wt;
                   executed_message name; Applied this []] w) in
  onTick j w = (add_events [LoggedError e] (release lockerCls name held), Ok Undefined)
  /\ trace (release lockerCls name held) =
     (trace held ++ release_events lockerCls name s2)%list.
Proof.
  intros P this opts E G A B held. split.
  - rewrite onTick_steps, P. fold this.
    rewrite (Locked_acquired name methodName lt wi wt (Native body) this []
               (add_events [started_message j; Invoked this (job_method j)] w)
               s0 lockerCls s1 (Ok true) E G A eq_refl).
    simpl apply. unfold extern. simpl ext. rewrite B.
    replace held with
      (set_ext s2
         (add_events [executed_message name; Applied this []]
            (set_ext s1
               (add_events [GotInstance opts; acquire_event name lt wi wt]
                  (add_events [started_message j; Invoked this (job_method j)] w)))))
      by (unfold held; same_world).
    reflexivity.
  - rewrite release_trace. reflexivity.
Qed.

End Facts.

(** ** The statements above on the small application *)

Local Abbreviation held := (Demo.imports Demo.redis_only (Some Demo.held_client)).
Local Abbreviation at_held := (Demo.start Demo.redis_only (Some Demo.held_client)).
Local Abbreviation free := (Demo.imports Demo.redis_only (Some Demo.free_client)).
Local Abbreviation at_free := (Demo.start Demo.redis_only (Some Demo.free_client)).

Lemma SchedulerLock_skips_when_not_acquired_witness :
  @apply held (Locked (Some "TaskService_run") "run" None None None (Native Demo.run))
    "taskService" [] at_held =
  (@Build_world held
     [GotInstance Demo.redis_server;
      CalledLock (Some "TaskService_run") None;
      Logged warn "Redis lock TaskService_run acquisition failed. The method run is not executed."]
     0%nat [] [] [],
   Ok Undefined).
Proof.
  destruct (@SchedulerLock_skips_when_not_acquired held
              (Some "TaskService_run") "run" None None None (Native Demo.run)
              "taskService" [] at_held eq_refl) as [skip _].
  exact (skip 0%nat Demo.held_client 0%nat (Ok false) eq_refl eq_refl
           (or_introl eq_refl)).
Defined.

(** With no client from [Locker.getInstance] the call is rejected and no
    warning is logged. *)
Lemma connection_failure_is_raised :
  let I := Demo.imports Demo.redis_only None in
  let call :=
    @apply I (Locked (Some "TaskService_run") "run" None None None (Native Demo.run))
      "taskService" [] (Demo.start Demo.redis_only None) in
  snd call = Throw (Error "Redis connection failed. The method run is not executed.")
  /\ raised (snd call) = true
  /\ filter (@is_warning I) (trace (fst call)) = [].
Proof.
  repeat split.
Qed.

(** The first run of [TaskService.run] under a free lock: the value is
    given back and the lock released. *)
Lemma SchedulerLock_applies_then_releases_witness :
  @apply free (Locked (Some "TaskService_run") "run" (Some 10000%Z) None None
                 (Native Demo.run)) "taskService" [Str "now"] at_free =
  (@Build_world free
     [GotInstance Demo.redis_server;
      CalledLock (Some "TaskService_run") (Some 10000%Z);
      Logged info "The locker TaskService_run executed.";
      @Applied free "taskService" [Str "now"];
      CalledUnLock (Some "TaskService_run")]
     1%nat [] [] [],
   Ok (Number 1)).
Proof.
  destruct (@SchedulerLock_applies_then_releases free
              (Some "TaskService_run") "run" (Some 10000%Z) None None
              (Native Demo.run) "taskService" [Str "now"] at_free
              0%nat Demo.free_client 0%nat eq_refl eq_refl eq_refl) as [call _].
  exact call.
Defined.

(** The third run raises: the error reaches the caller, and the lock is
    released all the same, the rejection of [unLock] only logged. *)
Example failed_run_is_raised_and_released :
  let I := Demo.imports Demo.redis_only
             (Some (Demo.client (Ok true) (Some (Throw (Error "ECONNRESET"))))) in
  @apply I (Locked (Some "TaskService_run") "run" None None None (Native Demo.run))
    "taskService" []
    (@Build_world I [] 2%nat [] [] []) =
  (@Build_world I
     [GotInstance Demo.redis_server;
      CalledLock (Some "TaskService_run") None;
      Logged info "The locker TaskService_run executed.";
      @Applied I "taskService" [];
      CalledUnLock (Some "TaskService_run");
      LoggedError (Error "ECONNRESET")]
     3%nat [] [] [],
   Throw (Error "the third run fails")).
Proof. reflexivity. Qed.

(** Redis refuses the connection when [lock] is called: the rejection is
    logged, the cycle skipped. *)
Example refused_lock_is_skipped :
  let I := Demo.imports Demo.redis_only (Some Demo.refused_client) in
  @apply I (Locked (Some "TaskService_run") "run" None None None (Native Demo.run))
    "taskService" [] (Demo.start Demo.redis_only (Some Demo.refused_client)) =
  (@Build_world I
     [GotInstance Demo.redis_server;
      CalledLock (Some "TaskService_run") None;
      LoggedError (Error "ECONNREFUSED");
      Logged warn "Redis lock TaskService_run acquisition failed. The method run is not executed."]
     0%nat [] [] [],
   Ok Undefined).
Proof. reflexivity. Qed.

Lemma SchedulerLock_picks_first_truthy_options_witness :
  (@apply (Demo.imports Demo.no_config (Some Demo.free_client))
     (Locked None "run" None None None (Native Demo.run)) "taskService" []
     (Demo.start Demo.no_config (Some Demo.free_client)) =
   (Demo.start Demo.no_config (Some Demo.free_client), Throw (@config_error)))
  /\
  (exists evs,
      trace (fst (@apply free (Locked None "run" None None None (Native Demo.run))
                    "taskService" [] at_free)) =
      GotInstance Demo.redis_server :: evs).
Proof.
  split.
  - destruct (@SchedulerLock_picks_first_truthy_options
                (Demo.imports Demo.no_config (Some Demo.free_client))
                None "run" None None None (Native Demo.run) "taskService" []
                (Demo.start Demo.no_config (Some Demo.free_client)))
      as (_ & _ & missing & _).
    exact (missing eq_refl).
  - destruct (@SchedulerLock_picks_first_truthy_options free
                None "run" None None None (Native Demo.run) "taskService" []
                at_free) as (_ & _ & _ & found).
    exact (found eq_refl).
Defined.

(** [SchedulerLock: {}] beside a [redis] entry that is not empty: the
    first is picked because it is truthy, and the call is rejected. *)
Lemma empty_SchedulerLock_hides_redis :
  let I := Demo.imports Demo.empty_SchedulerLock (Some Demo.free_client) in
  let w := Demo.start Demo.empty_SchedulerLock (Some Demo.free_client) in
  helper.isEmpty (@app_config I "taskService" "SchedulerLock" "db" (ext w)) = true
  /\ helper.isEmpty (@app_config I "taskService" "redis" "db" (ext w)) = false
  /\ @apply I (Locked None "run" None None None (Native Demo.run)) "taskService" [] w
     = (w, Throw (@config_error)).
Proof.
  repeat split.
Qed.

Lemma skipped_call_resolves_to_undefined_witness :
  snd (@apply held (Locked None "run" None None None (Native Demo.run))
         "taskService" [] at_held) = Ok Undefined.
Proof.
  exact (proj1 (@skipped_call_resolves_to_undefined held
                  None "run" None None None (Native Demo.run) "taskService" []
                  at_held 0%nat Demo.held_client 0%nat (Ok false)
                  eq_refl eq_refl eq_refl eq_refl)).
Defined.



Lemma Scheduled_fails_fast_or_records_witness :
  (@Scheduled free "   " at_free =
   (at_free, Throw (Error "ScheduleJob rule is not defined")))
  /\
  (exists decorator,
      @Scheduled free "0 */5 * * * *" at_free = (at_free, Ok decorator) /\
      registry (fst (decorator "TaskService" "run"
                       (Demo.descriptor Demo.redis_only (Some Demo.free_client))
                       at_free)) =
      [{| decoratorNameKey := "SCHEDULE_KEY";
          data := {| cron := "0 */5 * * * *"; method_name := "run" |};
          attached_to := "TaskService";
          propertyName := "run" |}]).
Proof.
  split.
  - destruct (@Scheduled_fails_fast_or_records free "   " at_free)
      as (_ & empty & _).
    exact (empty eq_refl).
  - destruct (@Scheduled_fails_fast_or_records free "0 */5 * * * *" at_free)
      as (_ & _ & records).
    destruct (records eq_refl) as (decorator & made & attaches).
    exists decorator. split; [ exact made | ].
    rewrite attaches. reflexivity.
Defined.

Lemma SchedulerLock_refuses_controllers_witness :
  (@SchedulerLock free None None None None "UserController" "index"
     (Demo.descriptor Demo.redis_only (Some Demo.free_client)) at_free =
   (at_free,
    Throw (Error "SchedulerLock decorator cannot be used in the controller class.")))
  /\
  (exists name',
      @SchedulerLock free None None None None "TaskService" "run"
        (Demo.descriptor Demo.redis_only (Some Demo.free_client)) at_free =
      (at_free,
       Ok (name',
           @Build_PropertyDescriptor free
             (Locked name' "run" None None None (Native Demo.run)) true false true))).
Proof.
  split.
  - exact (proj1 (@SchedulerLock_refuses_controllers free None None None None
                    "UserController" "index"
                    (Demo.descriptor Demo.redis_only (Some Demo.free_client)) at_free)
                 eq_refl).
  - apply (proj2 (@SchedulerLock_refuses_controllers free None None None None
                    "TaskService" "run"
                    (Demo.descriptor Demo.redis_only (Some Demo.free_client)) at_free)).
    discriminate.
Defined.



Lemma firing_never_throws_witness :
  let w := Demo.ticking Demo.redis_only (Some Demo.free_client) in
  let j := @Build_CronJob free "* * * * * *" "TaskService_run" "taskService" "run" true in
  timers w = [j]
  /\ @onTick free j w =
     (@add_events free [started_message j; @Invoked free "taskService" "run"]
        (@set_ext free 1%nat w),
      Ok (Number 1)).
Proof.
  intros w j. split; [ reflexivity | ].
  destruct (@firing_never_throws free) as (_ & calls & _).
  exact (calls j w (Native Demo.run) eq_refl).
Defined.

(** Five firings of the timer of [TaskService.run]: the third run fails,
    its error is logged, and the fourth and the fifth take place. *)
Example third_firing_fails_the_rest_fire :
  let w := Demo.ticking Demo.redis_only (Some Demo.free_client) in
  let after := @drive free [0; 0; 0; 0; 0]%nat w in
  snd after = Ok tt
  /\ ext (fst after) = 5%nat
  /\ length (filter (@is_started free) (trace (fst after))) = 5%nat
  /\ In (LoggedError (Error "the third run fails")) (trace (fst after)).
Proof.
  intros w after.
  split; [ vm_compute; reflexivity | ].
  split; [ vm_compute; reflexivity | ].
  split; [ vm_compute; reflexivity | ].
  subst after w. simpl. auto 20.
Qed.

Lemma registrar_skips_what_it_cannot_run_witness :
  let c := Demo.container Demo.redis_only (Some Demo.free_client) (Some 1%nat) in
  let runs := @Build_Listener free "TaskService" c "run" "* * * * * *" in
  let orphan := @Build_Listener free "ReportService" c "run" "* * * * * *" in
  let title := @Build_Listener free "TaskService" c "title" "* * * * * *" in
  let waiting :=
    @Build_world free [] 0%nat [] [(1%nat, "appStart", orphan);
                                  (1%nat, "appStart", runs);
                                  (1%nat, "appStart", title)] [] in
  @job_of free 0%nat orphan = []
  /\ @job_of free 0%nat title = []
  /\ @job_of free 0%nat runs =
     [@Build_CronJob free "* * * * * *" "TaskService_run" "taskService" "run" true]
  /\ snd (@app_emit free 1 "appStart" waiting) = Ok tt
  /\ timers (fst (@app_emit free 1 "appStart" waiting)) =
     [@Build_CronJob free "* * * * * *" "TaskService_run" "taskService" "run" true]
  /\ timers (Demo.ticking Demo.redis_only (Some Demo.free_client)) =
     [@Build_CronJob free "* * * * * *" "TaskService_run" "taskService" "run" true].
Proof.
  intros c runs orphan title waiting.
  destruct (@registrar_skips_what_it_cannot_run free) as (_ & _ & emitted & jobs).
  split; [ | split; [ | split; [ | split; [ | split ] ] ] ].
  - exact (proj1 (jobs 0%nat orphan) eq_refl).
  - exact (proj1 (proj2 (jobs 0%nat title)) "taskService" eq_refl eq_refl).
  - apply (proj2 (proj2 (jobs 0%nat runs)) "taskService" eq_refl eq_refl).
    discriminate.
  - apply (emitted 1%nat waiting).
    intros l [<-|[<-|[<-|[]]]] _; reflexivity.
  - apply (emitted 1%nat waiting).
    intros l [<-|[<-|[<-|[]]]] _; reflexivity.
  - reflexivity.
Defined.

(** Entries with an instance, a callable method and an expression that
    is not empty, and no timer: a method whose name is the empty string;
    a container without an application; and an entry that comes after
    one whose expression [CronJob] cannot read, which makes the emitter
    throw. *)
Lemma unnamed_method_or_missing_app_gets_no_timer :
  let cfg := Demo.redis_only in
  let cl := Some Demo.free_client in
  let unnamed := Demo.scheduled cfg cl "" in
  let named := Demo.scheduled cfg cl "run" in
  let every_minute : Attached (@Target free) :=
    @Build_Attached (@Target free) "SCHEDULE_KEY"
      {| cron := "every minute"; method_name := "run" |} "TaskService" "run" in
  let unread := @set_registry free (every_minute :: registry named) named in
  (@recursiveGetMetadata free "SCHEDULE_KEY" "TaskService" (registry unnamed) =
     [("", [{| cron := "* * * * * *"; method_name := "" |}])]
   /\ getInsByClass (Demo.container cfg cl (Some 1%nat)) "TaskService" (ext unnamed)
      = Some "taskService"
   /\ @isFunction free (@prop free "taskService" "" (ext unnamed)) = true
   /\ timers (fst (@app_emit free 1 "appStart"
                     (fst (@injectSchedule free "TaskService" "taskService"
                             (Demo.container cfg cl (Some 1%nat)) unnamed)))) = [])
  /\
  (@recursiveGetMetadata free "SCHEDULE_KEY" "TaskService" (registry named) =
     [("run", [{| cron := "* * * * * *"; method_name := "run" |}])]
   /\ getInsByClass (Demo.container cfg cl None) "TaskService" (ext named)
      = Some "taskService"
   /\ @isFunction free (@prop free "taskService" "run" (ext named)) = true
   /\ timers (fst (@app_emit free 1 "appStart"
                     (fst (@injectSchedule free "TaskService" "taskService"
                             (Demo.container cfg cl None) named)))) = [])
  /\
  (entries (@recursiveGetMetadata free "SCHEDULE_KEY" "TaskService" (registry unread)) =
     [("run", "every minute"); ("run", "* * * * * *")]
   /\ getInsByClass (Demo.container cfg cl (Some 1%nat)) "TaskService" (ext unread)
      = Some "taskService"
   /\ @isFunction free (@prop free "taskService" "run" (ext unread)) = true
   /\ snd (@app_emit free 1 "appStart"
             (fst (@injectSchedule free "TaskService" "taskService"
                     (Demo.container cfg cl (Some 1%nat)) unread)))
      = Throw (Error "Unknown alias: every minute")
   /\ timers (fst (@app_emit free 1 "appStart"
                     (fst (@injectSchedule free "TaskService" "taskService"
                             (Demo.container cfg cl (Some 1%nat)) unread)))) = []).
Proof.
  repeat split.
Qed.


(** ** More runs of the small application *)

(** [run] under two locks, [outer] around [inner]: what the inner
    wrapper does lies between the acquisition and the release of the
    outer lock. *)
Lemma original_method_runs_inside_the_lock_witness :
  exists inner,
    trace (fst (@apply free
                  (Locked (Some "outer") "run" None None None
                     (Locked (Some "inner") "run" None None None (Native Demo.run)))
                  "taskService" [] at_free)) =
    ([GotInstance Demo.redis_server;
      CalledLock (Some "outer") None;
      Logged info "The locker outer executed.";
      @Applied free "taskService" []]
     ++ inner ++ [CalledUnLock (Some "outer")])%list.
Proof.
  destruct (@original_method_runs_inside_the_lock free
              (Some "outer") "run" None None None
              (Locked (Some "inner") "run" None None None (Native Demo.run))
              "taskService" [] at_free 0%nat Demo.free_client 0%nat
              eq_refl eq_refl eq_refl) as (inner & _ & whole).
  exists inner. exact whole.
Defined.

(** The two locks in full: the inner one is taken after the outer one
    and released before it. *)
Example nested_locks_are_released_in_reverse :
  trace (fst (@apply free
                (Locked (Some "outer") "run" None None None
                   (Locked (Some "inner") "run" None None None (Native Demo.run)))
                "taskService" [] at_free)) =
  [GotInstance Demo.redis_server;
   CalledLock (Some "outer") None;
   Logged info "The locker outer executed.";
   @Applied free "taskService" [];
   GotInstance Demo.redis_server;
   CalledLock (Some "inner") None;
   Logged info "The locker inner executed.";
   @Applied free "taskService" [];
   CalledUnLock (Some "inner");
   CalledUnLock (Some "outer")].
Proof. reflexivity. Qed.

(** A firing of [run] under [@SchedulerLock()] where [db.ts] has no
    entry: the configuration error is logged and the firing ends. *)
Lemma lock_failures_end_a_firing_normally_witness :
  let I := Demo.guarded Demo.no_config (Some Demo.free_client) in
  let j := @Build_CronJob I "* * * * * *" "TaskService_run" "taskService" "run" true in
  let w := @Build_world I [] 0%nat [] [] [j] in
  @onTick I j w =
  (@Build_world I
     [Logged info "The schedule job TaskService_run started.";
      @Invoked I "taskService" "run";
      LoggedError (@config_error)]
     0%nat [] [] [j],
   Ok Undefined).
Proof.
  intros I j w.
  destruct (@lock_failures_end_a_firing_normally I j w
              (Some "TaskService_run") "run" None None None (Native Demo.run) eq_refl)
    as (unconfigured & _).
  exact (unconfigured eq_refl).
Defined.

Lemma injected_entries_start_on_appStart_witness :
  let w := Demo.scheduled Demo.redis_only (Some Demo.free_client) "run" in
  let c := Demo.container Demo.redis_only (Some Demo.free_client) (Some 1%nat) in
  timers (fst (@app_emit free 1 "appStart"
                 (fst (@injectSchedule free "TaskService" "taskService" c w)))) =
  [@Build_CronJob free "* * * * * *" "TaskService_run" "taskService" "run" true].
Proof.
  intros w c.
  destruct (@injected_entries_start_on_appStart free "TaskService" "taskService"
              c 1%nat w eq_refl) as (_ & started & _).
  { intros l [<-|[]] _. reflexivity. }
  exact started.
Defined.

(** A listener of [TaskService.run]: the first [appStart] starts its
    timer, the second does nothing. *)
Lemma appStart_registers_once_witness :
  let c := Demo.container Demo.redis_only (Some Demo.free_client) (Some 1%nat) in
  let first :=
    @app_emit free 1 "appStart"
      (fst (@execInjectSchedule free "TaskService" c "run" "* * * * * *" at_free)) in
  snd first = Ok tt
  /\ @app_emit free 1 "appStart" (fst first) = (fst first, Ok tt).
Proof.
  intros c first.
  destruct (@appStart_registers_once free "TaskService" c "run" "* * * * * *"
              1%nat at_free eq_refl) as (_ & once_only).
  apply once_only. intros l [<-|[]] _. reflexivity.
Defined.

(** A wrapper around a method that logs: the log of the method is in the
    trace, the timers are as they were. *)
Lemma installed_method_only_appends_witness :
  let logs : string -> list any -> @M free any :=
    fun _ _ => @bind free _ _ (@logger_info free "run") (fun _ => @ret free _ Undefined) in
  timers (fst (@SchedulerLock_value free (Some "job") "run" None None None logs
                 "taskService" []
                 (Demo.ticking Demo.redis_only (Some Demo.free_client)))) =
  timers (Demo.ticking Demo.redis_only (Some Demo.free_client)).
Proof.
  intros logs.
  destruct (@installed_method_only_appends free (Some "job") "run" None None None
              logs "taskService" []) with
    (w := Demo.ticking Demo.redis_only (Some Demo.free_client))
    as (_ & _ & _ & kept).
  { intros w. split; [ eexists; reflexivity | repeat split ]. }
  exact kept.
Defined.

Lemma decorators_commute_witness :
  exists decorator,
    @Scheduled free "0 0 * * * *" at_free = (at_free, Ok decorator) /\
    raised (snd (@bind free _ _
                   (decorator "TaskService" "run"
                      (Demo.descriptor Demo.redis_only (Some Demo.free_client)))
                   (fun _ => @SchedulerLock free None None None None "TaskService" "run"
                               (Demo.descriptor Demo.redis_only (Some Demo.free_client)))
                   at_free)) = false.
Proof.
  destruct (@decorators_commute free "0 0 * * * *" None None None None
              "TaskService" "run"
              (Demo.descriptor Demo.redis_only (Some Demo.free_client)) at_free
              eq_refl) as (decorator & made & _ & fine).
  { discriminate. }
  exists decorator. split; [ exact made | exact fine ].
Defined.

(** The decorator of one call [SchedulerLock()] on [run] and then on
    [sweep]: both are installed with the name [TaskService_run]. *)
Lemma shared_decorator_shares_the_lock_name_witness :
  let d := Demo.descriptor Demo.redis_only (Some Demo.free_client) in
  @SchedulerLock free (Some "TaskService_run") None None None "TaskService" "sweep"
    d at_free =
  (at_free,
   Ok (Some "TaskService_run",
       @Build_PropertyDescriptor free
         (Locked (Some "TaskService_run") "sweep" None None None (Native Demo.run))
         true false true)).
Proof.
  intros d.
  destruct (@shared_decorator_shares_the_lock_name free None None None None
              "TaskService" "run" d at_free
              (Some "TaskService_run")
              (@Build_PropertyDescriptor free
                 (Locked (Some "TaskService_run") "run" None None None (Native Demo.run))
                 true false true)
              "TaskService" "sweep" d at_free eq_refl) as (_ & _ & second).
  { discriminate. }
  exact second.
Defined.

(** The third run of the scheduled [run] under [@SchedulerLock()]: it
    raises, the lock is released, the error is logged. *)
Lemma failed_job_releases_its_lock_witness :
  let I := Demo.guarded Demo.redis_only (Some Demo.free_client) in
  let j := @Build_CronJob I "* * * * * *" "TaskService_run" "taskService" "run" true in
  let w := @Build_world I [] 2%nat [] [] [j] in
  @onTick I j w =
  (@Build_world I
     [Logged info "The schedule job TaskService_run started.";
      @Invoked I "taskService" "run";
      GotInstance Demo.redis_server;
      CalledLock (Some "TaskService_run") None;
      Logged info "The locker TaskService_run executed.";
      @Applied I "taskService" [];
      CalledUnLock (Some "TaskService_run");
      LoggedError (Error "the third run fails")]
     3%nat [] [] [j],
   Ok Undefined).
Proof.
  intros I j w.
  destruct (@failed_job_releases_its_lock I j w
              (Some "TaskService_run") "run" None None None Demo.run
              2%nat Demo.free_client 2%nat 3%nat (Error "the third run fails")
              eq_refl eq_refl eq_refl eq_refl eq_refl) as [fired _].
  exact fired.
Defined.


(** ** BaseController.ts *)

Module BaseControllerFacts.

Import BaseController.

Lemma toLowerCase_append a b :
  toLowerCase (a ++ b) = toLowerCase a ++ toLowerCase b.
Proof.
  induction a as [|c a IH]; simpl; [ reflexivity | rewrite IH; reflexivity ].
Qed.

Lemma substring_prefix p b : substring 0 (String.length p) (p ++ b) = p.
Proof.
  induction p as [|c p IH]; simpl.
  - destruct b; reflexivity.
  - rewrite IH. reflexivity.
Qed.

Lemma index_step s1 b s2 :
  String.index 0 s1 (String b s2) =
  if prefix s1 (String b s2) then Some 0%nat
  else match String.index 0 s1 s2 with
       | Some n => Some (S n)
       | None => None
       end.
Proof. reflexivity. Qed.

Lemma index_found c p a b :
  exists n, String.index 0 (String c p) (a ++ String c p ++ b) = Some n.
Proof.
  induction a as [|x a [n IH]].
  - exists 0%nat.
    change ("" ++ String c p ++ b) with (String c (p ++ b)).
    rewrite index_step.
    assert (P : prefix (String c p) (String c (p ++ b)) = true).
    { apply prefix_correct. apply (substring_prefix (String c p) b). }
    rewrite P. reflexivity.
  - change (String x a ++ String c p ++ b) with (String x (a ++ String c p ++ b)).
    rewrite index_step.
    destruct (prefix (String c p) (String x (a ++ String c p ++ b))).
    + eexists; reflexivity.
    + rewrite IH. eexists; reflexivity.
Qed.

Lemma append_append a b c : (a ++ b) ++ c = a ++ b ++ c.
Proof.
  induction a as [|x a IH]; simpl; [ | rewrite IH ]; reflexivity.
Qed.

Lemma has_charset_appended contentType e :
  has_charset (contentType ++ "; charset=" ++ e) = true.
Proof.
  unfold has_charset. rewrite !toLowerCase_append.
  change (toLowerCase "; charset=") with ("; " ++ "charset=").
  rewrite (append_append "; " "charset=" (toLowerCase e)).
  rewrite <- (append_append (toLowerCase contentType) "; " _).
  destruct (index_found "c" "harset=" (toLowerCase contentType ++ "; ") (toLowerCase e))
    as [n F].
  rewrite F. reflexivity.
Qed.

Lemma append_not_empty a b : a <> "" -> a ++ b <> "".
Proof.
  destruct a; [ congruence | discriminate ].
Qed.

Lemma types_with_content_type app ctx contentType encoding :
  contentType <> "" ->
  types app ctx (Some contentType) encoding =
  let r :=
    if not_false encoding && negb (has_charset contentType) then
      contentType ++ "; charset="
      ++ encoding_string (if truthy_encoding encoding then encoding
                          else config_encoding app)
    else contentType in
  (set_type r ctx, r).
Proof.
  intros N. unfold types.
  assert (T : truthy (of_string (Some contentType)) = true).
  { simpl. apply negb_true_iff. apply String.eqb_neq. exact N. }
  rewrite T. reflexivity.
Qed.

(** X9: [types] called with a content type, and with anything but
    [false] for the encoding, assigns and returns a type that has a
    [charset=] parameter; it adds none when the content type has one
    already, in whatever case it is written; and called again on its
    own result, with any encoding, it returns the result unchanged. *)
Theorem types_appends_charset_once app ctx contentType encoding :
  contentType <> "" ->
  encoding <> Flag false ->
  let ctx' := fst (types app ctx (Some contentType) encoding) in
  let r := snd (types app ctx (Some contentType) encoding) in
  has_charset r = true
  /\ type ctx' = Some r
  /\ (has_charset contentType = true -> r = contentType)
  /\ (forall app2 encoding2, types app2 ctx' (Some r) encoding2 = (ctx', r)).
Proof.
  intros N F. rewrite (types_with_content_type app ctx contentType encoding N).
  assert (NF : not_false encoding = true).
  { destruct encoding as [|[|]|s]; try reflexivity. contradiction. }
  rewrite NF. cbv zeta. simpl fst. simpl snd.
  set (e := encoding_string (if truthy_encoding encoding then encoding
                             else config_encoding app)).
  set (r := if true && negb (has_charset contentType)
            then contentType ++ "; charset=" ++ e else contentType).
  assert (R : has_charset r = true /\ r <> "").
  { subst r. destruct (has_charset contentType) eqn:C; simpl.
    - split; assumption.
    - split; [ apply has_charset_appended | apply append_not_empty; exact N ]. }
  destruct R as [C R].
  split; [ exact C | split; [ reflexivity | split ] ].
  - intros C0. subst r. rewrite C0. reflexivity.
  - intros app2 encoding2. rewrite (types_with_content_type _ _ _ _ R).
    rewrite C, andb_false_r. reflexivity.
Qed.

(** X10: [write] always assigns the body it is given and returns what
    [this.app.prevent()] returns; the type it assigns starts from the
    content type given, or from [text/plain] when none is given, and
    has a [charset=] parameter unless the encoding in force (the one
    given, or else the configured one) is [false] and the content type
    brought none. *)
Theorem write_sets_body_and_type app ctx data contentType encoding :
  let base :=
    if truthy (of_string contentType) then template contentType else "text/plain" in
  let in_force :=
    if truthy (of_string encoding) then Charset (template encoding)
    else config_encoding app in
  let ctx' := fst (write app ctx data contentType encoding) in
  snd (write app ctx data contentType encoding) = prevent app
  /\ body ctx' = data
  /\ (exists t, type ctx' = Some t /\ prefix base t = true /\
               has_charset t = not_false in_force || has_charset base).
Proof.
  intros base in_force ctx'.
  split; [ reflexivity | split; [ reflexivity | ] ].
  subst ctx'. unfold write. fold base. fold in_force.
  assert (B : truthy (of_string (Some base)) = true).
  { subst base. destruct (truthy (of_string contentType)) eqn:T; [ | reflexivity ].
    destruct contentType as [s|]; [ exact T | discriminate ]. }
  unfold types. rewrite B. simpl.
  eexists. split; [ reflexivity | ].
  destruct (not_false in_force); simpl.
  - destruct (has_charset base) eqn:C; simpl.
    + split; [ | exact C ]. apply prefix_correct.
      clear. induction base as [|c s IH]; simpl; [ reflexivity | rewrite IH; reflexivity ].
    + split; [ | apply has_charset_appended ].
      apply prefix_correct. apply substring_prefix.
  - split; [ | reflexivity ]. apply prefix_correct.
    clear. induction base as [|c s IH]; simpl; [ reflexivity | rewrite IH; reflexivity ].
Qed.

Lemma keep_word_or_dot_every s : every word_or_dot (keep_word_or_dot s) = true.
Proof.
  induction s as [|c s IH]; simpl; auto.
  destruct (word_or_dot c) eqn:W; simpl; [ rewrite W | ]; exact IH.
Qed.

Lemma keep_word_or_dot_same s :
  every word_or_dot s = true -> keep_word_or_dot s = s.
Proof.
  induction s as [|c s IH]; simpl; auto.
  intros E. apply andb_true_iff in E as [W E]. rewrite W, IH; auto.
Qed.

(** X11: the function name [jsonp] writes before the parenthesis is made
    of letters, digits, underscores and dots only, whatever the request
    asks for; a name made of such characters is used as it is; and when
    nothing is left of the name the data is written as it came. *)
Theorem jsonp_callback_is_sanitised app ctx data :
  let asked :=
    if truthy (of_string (querys ctx "callback")) then template (querys ctx "callback")
    else "callback" in
  let callback := keep_word_or_dot asked in
  every word_or_dot callback = true
  /\ (every word_or_dot asked = true -> callback = asked)
  /\ body (fst (jsonp app ctx data)) =
     (if callback =? "" then data
      else Str (callback ++ "("
                ++ (match data with Undefined => "" | _ => JSON_stringify app data end)
                ++ ")"))
  /\ type (fst (jsonp app ctx data)) = type (fst (json app ctx data)).
Proof.
  intros asked callback.
  split; [ apply keep_word_or_dot_every | ].
  split; [ apply keep_word_or_dot_same | ].
  split.
  - unfold jsonp. fold asked. fold callback. simpl.
    destruct (callback =? ""); reflexivity.
  - reflexivity.
Qed.

(** X12: the envelope [ok] and [fail] write always has the four fields
    [status], [code], [message] and [data], in this order; [status] is 1
    for [ok] and 0 for [fail], the code is 200 and 500 when none is
    given, the message of [ok] is a string and the message of [fail] is
    truthy, and [data] is never [undefined]; both respond as [json]
    does. *)
Theorem ok_and_fail_envelopes app ctx errmsg failure data code :
  (exists message payload,
      body (fst (ok app ctx errmsg data code)) =
      Object [("status", Number 1);
              ("code", Number (match code with Some c => c | None => 200%Z end));
              ("message", Str message); ("data", payload)]
      /\ payload <> Undefined)
  /\
  (exists message payload,
      body (fst (fail app ctx failure data code)) =
      Object [("status", Number 0);
              ("code", Number (match code with Some c => c | None => 500%Z end));
              ("message", message); ("data", payload)]
      /\ truthy message = true /\ payload <> Undefined)
  /\ type (fst (ok app ctx errmsg data code)) = type (fst (json app ctx data))
  /\ type (fst (fail app ctx failure data code)) = type (fst (json app ctx data))
  /\ snd (ok app ctx errmsg data code) = prevent app
  /\ snd (fail app ctx failure data code) = prevent app.
Proof.
  assert (D : match data with Undefined => Object [] | _ => data end <> Undefined).
  { destruct data; discriminate. }
  repeat split.
  - eexists. eexists. split; [ reflexivity | exact D ].
  - eexists. eexists. split; [ reflexivity | split; [ | exact D ] ].
    destruct (truthy match failure with Error message => Str message | _ => failure end)
      eqn:T; [ exact T | reflexivity ].
Qed.










(** [?callback=alert(1)//] and [?callback=jQuery.cb_1]. *)
Lemma jsonp_callback_is_sanitised_witness :
  body (fst (jsonp utf8 (request (Some "alert(1)//")) (Number 7))) = Str "alert1({})"
  /\ keep_word_or_dot "jQuery.cb_1" = "jQuery.cb_1".
Proof.
  destruct (jsonp_callback_is_sanitised utf8 (request (Some "alert(1)//")) (Number 7))
    as (_ & _ & written & _).
  destruct (jsonp_callback_is_sanitised utf8 (request (Some "jQuery.cb_1")) (Number 7))
    as (_ & same & _).
  split; [ exact written | exact (same eq_refl) ].
Defined.

Lemma types_appends_charset_once_witness :
  snd (types utf8 (request None) (Some "text/html") Missing)
    = "text/html; charset=utf-8"
  /\ snd (types utf8 (request None) (Some "text/html; Charset=GBK") (Charset "utf-8"))
    = "text/html; Charset=GBK".
Proof.
  split.
  - reflexivity.
  - destruct (types_appends_charset_once utf8 (request None)
                "text/html; Charset=GBK" (Charset "utf-8")) as (_ & _ & kept & _);
      try discriminate.
    exact (kept eq_refl).
Defined.


(** A header that starts with a no-break space (character 160) and ends
    in a tab. *)
Example no_break_space_is_trimmed :
  snd (types utf8
         {| headers := fun _ =>
              Some (String (ascii_of_nat 160) ("text/html" ++ String (ascii_of_nat 9) ""));
            querys := fun _ => None; type := None; body := Undefined |}
         None Missing) = "text/html".
Proof. reflexivity. Qed.

(** No encoding given and none configured: the charset is the string
    [undefined]. *)
Example write_without_any_encoding :
  type (fst (write {| config_encoding := Missing; prevent := Ok Undefined;
                      JSON_stringify := fun _ => "" |}
               (request None) (Str "hello") None None))
  = Some "text/plain; charset=undefined".
Proof. reflexivity. Qed.

End BaseControllerFacts.
